(** * pprotein: the snapshot collector ([internal/collect/collector.go])

    A shallow embedding of the [Collector] of package [collect]: the status
    ledger ([data], guarded by [mu]), [updateStatus], [runProcessor], [Get],
    [List], [Collect] and the constructor [New].

    The methods are written in a small state monad.  The state holds the
    [Collector] struct, the heap of allocated [Entry] cells (the ledger maps an
    ID to a pointer), the state of the collaborators that live in other files
    (storage, snapshots, the cached processor, the event publisher), the trace
    of the calls made so far and the goroutines started by [go] statements.
    A computation that yields [None] is a goroutine that does not return: it
    blocks for ever on the mutex or panics.

    One call is followed from its first statement to its return, with no other
    goroutine scheduled in between. *)

From stdpp Require Import gmap strings list fin_maps pretty.
From Stdlib Require Import ZArith.

Local Open Scope string_scope.
Local Open Scope list_scope.

(* ===================================================================== *)
(** ** Errors: [error], [fmt.Errorf]                                      *)
(* ===================================================================== *)

(** A Go [error] value.  [errorString] is what [errors.New] and a
    [fmt.Errorf] without [%w] build; [wrapError] is what [fmt.Errorf] builds
    for a format with [%w]: the formatted text and the wrapped error. *)
Inductive error : Type :=
| errorString (s : string)
| wrapError (msg : string) (err : error).

Definition Error (e : error) : string :=
  match e with
  | errorString s => s
  | wrapError msg _ => msg
  end.

Definition Unwrap (e : error) : option error :=
  match e with
  | errorString _ => None
  | wrapError _ err => Some err
  end.

(** [fmt.Errorf(text)], no verb. *)
Definition Errorf (text : string) : error := errorString text.

(** [fmt.Errorf(prefix + "%w", err)]. *)
Definition Errorf_w (prefix : string) (err : error) : error :=
  wrapError (prefix +:+ Error err) err.

(* ===================================================================== *)
(** ** Data model                                                         *)
(* ===================================================================== *)

Record SnapshotTarget : Type := {
  URL : string;
  Duration : Z
}.

(** Modelled from the spec: the struct [Snapshot] is declared in another file
    of the package.  The collector reads its [ID] only; the spec gives a
    snapshot a stable string ID, a type label and its capture target.  The
    collector holds [*Snapshot] pointers; a snapshot is never written here, so
    the pointer is modelled by the value it points to. *)
Record Snapshot : Type := {
  ID : string;
  Snapshot_Type : string;
  Snapshot_Target : SnapshotTarget
}.

(** [type Status string] with its three constants. *)
Definition Status : Type := string.
Definition StatusOk : Status := "ok".
Definition StatusFail : Status := "fail".
Definition StatusPending : Status := "pending".

Record Entry : Type := {
  Entry_Snapshot : Snapshot;
  Entry_Status : Status;
  Entry_Message : string
}.

(** A pointer to an [Entry]: the index of a cell of the heap of entries. *)
Abbreviation loc := nat.

(** [sync.RWMutex]: one writer or any number of readers. *)
Record RWMutex : Type := {
  writer : bool;
  readers : nat
}.

Definition unlocked : RWMutex := {| writer := false; readers := 0 |}.

(** [Lock] blocks while the mutex has a holder; in a run of one goroutine a
    blocked call never returns. *)
Definition RWMutex_Lock (m : RWMutex) : option RWMutex :=
  if writer m || (0 <? readers m)%nat
  then None
  else Some {| writer := true; readers := 0 |}.

(** [Unlock] of a mutex that is not locked for writing is a fatal error. *)
Definition RWMutex_Unlock (m : RWMutex) : option RWMutex :=
  if writer m
  then Some {| writer := false; readers := readers m |}
  else None.

Definition RWMutex_RLock (m : RWMutex) : option RWMutex :=
  if writer m
  then None
  else Some {| writer := false; readers := S (readers m) |}.

Definition RWMutex_RUnlock (m : RWMutex) : option RWMutex :=
  match readers m with
  | O => None
  | S n => Some {| writer := writer m; readers := n |}
  end.

(** Whether some goroutine holds the mutex, in either mode. *)
Definition held (m : RWMutex) : bool := writer m || (0 <? readers m)%nat.

(* ===================================================================== *)
(** ** Collaborators                                                      *)
(* ===================================================================== *)

(** The parts of the repository the collector calls and that are declared
    outside [collector.go]: storage, the capture and pruning of a snapshot,
    the processor and its caching wrapper, the event hub.  Each call may read
    and change the collaborators' own state, [World]. *)
Class Collaborators : Type := {
  World : Type;
  Storage : Type;
  Processor : Type;
  Publisher : Type;
  Hub : Type;
  ReadCloser : Type;
  (** [newStorage(workDir, fileName)], a storage handle or an error *)
  newStorage : string → string → World → (Storage + error) * World;
  (** [store.List()], the persisted snapshots or an error *)
  Storage_List : Storage → World → (list Snapshot + error) * World;
  (** [store.PrepareSnapshot(typeLabel, target)], a new snapshot *)
  Storage_PrepareSnapshot :
    Storage → string → SnapshotTarget → World → Snapshot * World;
  (** [snapshot.Collect()], the capture; [nil] on success *)
  Snapshot_Collect : Snapshot → World → option error * World;
  (** [snapshot.Prune()] *)
  Snapshot_Prune : Snapshot → World → World;
  (** [newCachedProcessor(processor)] *)
  newCachedProcessor : Processor → Processor;
  (** [processor.Process(snapshot)], a reader and an error, either may be [nil] *)
  Processor_Process :
    Processor → Snapshot → World → (option ReadCloser * option error) * World;
  (** [io.ReadCloser.Close()]; the collector drops the error it returns. *)
  ReadCloser_Close : ReadCloser → World → World;
  (** [hub.Publisher(label)] *)
  Hub_Publisher : Hub → string → Publisher;
  (** [publisher.Publish()] *)
  Publisher_Publish : Publisher → World → World
}.

Section Collector.

Context `{Ext : Collaborators}.

Record Options : Type := {
  Options_Type : string;
  WorkDir : string;
  FileName : string;
  EventHub : Hub
}.

(** The [Collector] struct.  [mu] and [data] are a pointer and a map: every
    copy of the struct shares them, so they are part of the one state. *)
Record Collector : Type := {
  typeLabel : string;
  storage : Storage;
  processor : Processor;
  publisher : Publisher;
  mu : RWMutex;
  data : gmap string loc
}.

(** A goroutine started by a [go] statement of this file. *)
Inductive task : Type :=
| goRunProcessor (snapshot : Snapshot)
| goPrune (snapshot : Snapshot).

(** The calls a goroutine makes, in program order. *)
Inductive event : Type :=
| EvLock
| EvUnlock
| EvRLock
| EvRUnlock
| EvPublish
| EvNewStorage (workDir fileName : string)
| EvStorageList
| EvPrepareSnapshot (label : string) (target : SnapshotTarget)
| EvCapture (snapshot : Snapshot)
| EvProcess (snapshot : Snapshot)
| EvClose (r : ReadCloser)
| EvPrune (snapshot : Snapshot)
| EvGo (t : task).

(** What surrounds the collector: the heap of [Entry] cells, the
    collaborators' state, the calls made and the goroutines started. *)
Record Runtime : Type := {
  heap : list Entry;
  world : World;
  trace : list event;
  goroutines : list task
}.

Record State : Type := {
  self : Collector;
  env : Runtime
}.

Definition set_mu (m : RWMutex) (c : Collector) : Collector :=
  {| typeLabel := typeLabel c; storage := storage c;
     processor := processor c; publisher := publisher c;
     mu := m; data := data c |}.

Definition set_data (d : gmap string loc) (c : Collector) : Collector :=
  {| typeLabel := typeLabel c; storage := storage c;
     processor := processor c; publisher := publisher c;
     mu := mu c; data := d |}.

Definition set_heap (h : list Entry) (r : Runtime) : Runtime :=
  {| heap := h; world := world r; trace := trace r;
     goroutines := goroutines r |}.

Definition set_world (w : World) (r : Runtime) : Runtime :=
  {| heap := heap r; world := w; trace := trace r;
     goroutines := goroutines r |}.

Definition log (e : event) (r : Runtime) : Runtime :=
  {| heap := heap r; world := world r; trace := trace r ++ [e];
     goroutines := goroutines r |}.

Definition spawn (t : task) (r : Runtime) : Runtime :=
  {| heap := heap r; world := world r; trace := trace r;
     goroutines := goroutines r ++ [t] |}.

(* ===================================================================== *)
(** ** The monad of a goroutine                                           *)
(* ===================================================================== *)

Definition M (A : Type) : Type := State → option (A * State).

#[export] Instance M_ret : MRet M := λ A a st, Some (a, st).

#[export] Instance M_bind : MBind M :=
  λ A B k m st, match m st with
                | Some (a, st') => k a st'
                | None => None
                end.

(** [defer d] at the head of a function body: [d] runs when the body
    returns, and the body's results are the function's. *)
Definition defer {A : Type} (d : M unit) (body : M A) : M A :=
  a ← body; d;; mret a.

(** Run a collaborator on the world and record the call. *)
Definition call {A : Type} (e : event) (f : World → A * World) : M A :=
  λ st,
    let '(a, w) := f (world (env st)) in
    Some (a, {| self := self st; env := set_world w (log e (env st)) |}).

(** The same for a collaborator that returns nothing. *)
Definition call_ (e : event) (f : World → World) : M unit :=
  call e (λ w, (tt, f w)).

(** An operation of the mutex [c.mu]; the goroutine stops where the
    operation blocks or is a fatal error. *)
Definition sync (e : event) (op : RWMutex → option RWMutex) : M unit :=
  λ st,
    match op (mu (self st)) with
    | Some m => Some (tt, {| self := set_mu m (self st);
                             env := log e (env st) |})
    | None => None
    end.

Definition mu_Lock : M unit := sync EvLock RWMutex_Lock.
Definition mu_Unlock : M unit := sync EvUnlock RWMutex_Unlock.
Definition mu_RLock : M unit := sync EvRLock RWMutex_RLock.
Definition mu_RUnlock : M unit := sync EvRUnlock RWMutex_RUnlock.

(** [&Entry{...}]: a new cell at the end of the heap. *)
Definition new_Entry (e : Entry) : M loc :=
  λ st, Some (length (heap (env st)),
              {| self := self st;
                 env := set_heap (heap (env st) ++ [e]) (env st) |}).

(** Dereference of an [Entry] pointer; [nil] and dangling pointers panic. *)
Definition deref (p : option loc) : M Entry :=
  λ st, match p with
        | Some a => match heap (env st) !! a with
                    | Some e => Some (e, st)
                    | None => None
                    end
        | None => None
        end.

(** [c.data[id] = p] *)
Definition data_store (id : string) (p : loc) : M unit :=
  λ st, Some (tt, {| self := set_data (<[id := p]> (data (self st))) (self st);
                     env := env st |}).

(** [ent, ok := c.data[id]]: the zero value [nil] when the key is absent. *)
Definition data_index (id : string) : M (option loc * bool) :=
  λ st, match data (self st) !! id with
        | Some p => Some ((Some p, true), st)
        | None => Some ((None, false), st)
        end.

(** [go f()] *)
Definition go (t : task) : M unit :=
  λ st, Some (tt, {| self := self st; env := spawn t (log (EvGo t) (env st)) |}).

(** The receiver [c]. *)
Definition this : M Collector := λ st, Some (self st, st).

(** [%v] of a pointer to an [Entry].  A [nil] pointer prints as [<nil>].
    A pointer to a struct prints [&{...}] with the fields inside, the first
    of which is a machine address; that text is not modelled, and [Get] never
    asks for it: it formats the zero value of a failed map lookup. *)
Definition fmt_v (ent : option loc) : string :=
  match ent with
  | None => "<nil>"
  | Some _ => "&{...}"
  end.

(* ===================================================================== *)
(** ** The collector's methods                                            *)
(* ===================================================================== *)

Definition updateStatus (snapshot : Snapshot) (status : Status) (msg : string)
  : M unit :=
  mu_Lock;;
  defer mu_Unlock (
    p ← new_Entry {| Entry_Snapshot := snapshot;
                     Entry_Status := status;
                     Entry_Message := msg |};
    data_store (ID snapshot) p;;
    c ← this;
    call_ EvPublish (Publisher_Publish (publisher c))).

Definition runProcessor (snapshot : Snapshot) : M (option error) :=
  updateStatus snapshot StatusPending "Processing";;
  c ← this;
  '(r, err) ← call (EvProcess snapshot)
                   (Processor_Process (processor c) snapshot);
  match err with
  | Some err =>
      go (goPrune snapshot);;
      updateStatus snapshot StatusFail (Error err);;
      mret (Some (Errorf_w "processor aborted: " err))
  | None =>
      match r with
      | Some r => call_ (EvClose r) (ReadCloser_Close r)
      | None => mret tt
      end;;
      updateStatus snapshot StatusOk "Ready";;
      mret None
  end.

Definition Get (id : string) : M (option ReadCloser * option error) :=
  mu_RLock;;
  defer mu_RUnlock (
    '(ent, ok) ← data_index id;
    if negb ok
    then mret (None, Some (Errorf ("no such entry: " +:+ fmt_v ent)))
    else
      e ← deref ent;
      c ← this;
      call (EvProcess (Entry_Snapshot e))
           (Processor_Process (processor c) (Entry_Snapshot e))).

(** [List].  Go ranges over a map in an order of its own choosing;
    [map_to_list] is one such order, and what is proved of the result holds
    up to permutation. *)
Definition List : M (list loc) :=
  mu_RLock;;
  defer mu_RUnlock (
    c ← this;
    mret (foldl (λ resp kv, resp ++ [kv.2]) [] (map_to_list (data c)))).

Definition Collect (target : SnapshotTarget) : M (option error) :=
  if String.eqb (URL target) "" || (Duration target =? 0)%Z
  then mret (Some (Errorf "URL and Duration cannot be nil"))
  else
    c ← this;
    snapshot ← call (EvPrepareSnapshot (typeLabel c) target)
                    (Storage_PrepareSnapshot (storage c) (typeLabel c) target);
    updateStatus snapshot StatusPending "Collecting";;
    err ← call (EvCapture snapshot) (Snapshot_Collect snapshot);
    match err with
    | Some err =>
        updateStatus snapshot StatusFail (Error err);;
        mret (Some (Errorf_w "failed to collect: " err))
    | None =>
        err ← runProcessor snapshot;
        match err with
        | Some err =>
            updateStatus snapshot StatusFail (Error err);;
            mret (Some (Errorf_w "failed to process: " err))
        | None => mret None
        end
    end.

(** [New].  No method has run yet: the constructor is a function of the
    runtime alone and returns the pair of Go, a collector (or [nil]) and an
    error (or [nil]). *)
Definition New (processor0 : Processor) (opts : Options) (rt : Runtime)
  : (option Collector * option error) * Runtime :=
  let '(store, w) := newStorage (WorkDir opts) (FileName opts) (world rt) in
  let rt := set_world w (log (EvNewStorage (WorkDir opts) (FileName opts)) rt) in
  match store with
  | inr err =>
      ((None, Some (Errorf_w "failed to initialize storage: " err)), rt)
  | inl store =>
      let c := {| typeLabel := Options_Type opts;
                  storage := store;
                  processor := newCachedProcessor processor0;
                  publisher := Hub_Publisher (EventHub opts) (Options_Type opts);
                  mu := unlocked;
                  data := ∅ |} in
      let '(snapshots, w) := Storage_List store (world rt) in
      let rt := set_world w (log EvStorageList rt) in
      match snapshots with
      | inr err =>
          ((None, Some (Errorf_w "failed to list snapshots: " err)), rt)
      | inl snapshots =>
          ((Some c, None),
           foldl (λ rt snapshot,
                    spawn (goRunProcessor snapshot)
                          (log (EvGo (goRunProcessor snapshot)) rt))
                 rt snapshots)
      end
  end.

(* ===================================================================== *)
(** ** Goroutines and the mutex along a trace                             *)
(* ===================================================================== *)

(** The body of a goroutine; a goroutine's results are dropped. *)
Definition runTask (t : task) : M unit :=
  match t with
  | goRunProcessor snapshot => runProcessor snapshot;; mret tt
  | goPrune snapshot => call_ (EvPrune snapshot) (Snapshot_Prune snapshot)
  end.

(** The scheduler runs the [i]-th started goroutine to its end. *)
Definition schedule (i : nat) : M unit :=
  λ st,
    match goroutines (env st) !! i with
    | Some t =>
        runTask t
          {| self := self st;
             env := {| heap := heap (env st); world := world (env st);
                       trace := trace (env st);
                       goroutines := delete i (goroutines (env st)) |} |}
    | None => None
    end.

(** The mutex after an event. *)
Definition after (e : event) (m : RWMutex) : RWMutex :=
  match e with
  | EvLock => default m (RWMutex_Lock m)
  | EvUnlock => default m (RWMutex_Unlock m)
  | EvRLock => default m (RWMutex_RLock m)
  | EvRUnlock => default m (RWMutex_RUnlock m)
  | _ => m
  end.

(** Each event of a trace with the mutex as it is when the event happens,
    from the mutex [m] at the start of the trace. *)
Fixpoint with_mutex (m : RWMutex) (tr : list event) : list (RWMutex * event) :=
  match tr with
  | [] => []
  | e :: tr => (m, e) :: with_mutex (after e m) tr
  end.

(** The calls that may take long: a capture or a processing. *)
Definition is_long (e : event) : bool :=
  match e with
  | EvCapture _ | EvProcess _ => true
  | _ => false
  end.

(** The calls of [Publish]. *)
Definition is_publish (e : event) : bool :=
  match e with
  | EvPublish => true
  | _ => false
  end.

(** The calls of the processor. *)
Definition is_process (e : event) : bool :=
  match e with
  | EvProcess _ => true
  | _ => false
  end.

(** The entry the ledger holds for an ID, read through the pointer. *)
Definition ledger (st : State) (id : string) : option Entry :=
  p ← data (self st) !! id; heap (env st) !! p.

(* ===================================================================== *)
(** ** Reading a run                                                      *)
(* ===================================================================== *)

(** The mutex of the ledger has no holder. *)
Definition free (st : State) : Prop := mu (self st) = unlocked.

(** The events of a run from [st] to [st']. *)
Definition events_since (st st' : State) : list event :=
  drop (length (trace (env st))) (trace (env st')).

(** No event selected by [P] happens while the mutex is held. *)
Definition unheld_at (P : event → bool) (m : RWMutex) (tr : list event) : bool :=
  forallb (λ me, implb (P me.2) (negb (held me.1))) (with_mutex m tr).

(** A run of [m] from [st] makes none of the calls selected by [P] with the
    ledger's mutex held. *)
Definition lock_released_during {A : Type}
    (P : event → bool) (m : M A) (st : State) : Prop :=
  ∀ a st', m st = Some (a, st') →
    unheld_at P (mu (self st)) (events_since st st') = true.

(** The state [updateStatus] leaves. *)
Definition stored (snapshot : Snapshot) (status : Status) (msg : string)
    (st : State) : State :=
  {| self := set_data (<[ID snapshot := length (heap (env st))]> (data (self st)))
                      (self st);
     env := {| heap := heap (env st) ++
                 [{| Entry_Snapshot := snapshot; Entry_Status := status;
                     Entry_Message := msg |}];
               world := Publisher_Publish (publisher (self st)) (world (env st));
               trace := trace (env st) ++ [EvLock; EvPublish; EvUnlock];
               goroutines := goroutines (env st) |} |}.

(** The state after a call to a collaborator that leaves the world [w]. *)
Definition told (e : event) (w : World) (st : State) : State :=
  {| self := self st; env := set_world w (log e (env st)) |}.

(** The state after a [go] statement. *)
Definition started (t : task) (st : State) : State :=
  {| self := self st; env := spawn t (log (EvGo t) (env st)) |}.

(** A target [Collect] accepts. *)
Definition valid (target : SnapshotTarget) : Prop :=
  URL target ≠ "" ∧ Duration target ≠ 0%Z.

(** How many events of a trace [P] selects. *)
Definition count_of (P : event → bool) (tr : list event) : nat :=
  length (List.filter P tr).

(** The state in which [Collect] calls the capture: the snapshot is
    allocated and marked pending. *)
Definition collecting (target : SnapshotTarget) (snapshot : Snapshot)
    (w : World) (st : State) : State :=
  stored snapshot StatusPending "Collecting"
    (told (EvPrepareSnapshot (typeLabel (self st)) target) w st).

(** No writer holds the mutex: a reader gets it at once. *)
Definition readable (st : State) : Prop := writer (mu (self st)) = false.

(** The state after a read of the ledger under the shared lock, with the
    events [evs] and the world [w] of the calls made in between. *)
Definition read (evs : list event) (w : World) (st : State) : State :=
  {| self := self st;
     env := {| heap := heap (env st); world := w;
               trace := trace (env st) ++ EvRLock :: evs ++ [EvRUnlock];
               goroutines := goroutines (env st) |} |}.

(** The mutex while one writer holds it. *)
Definition wlocked : RWMutex := {| writer := true; readers := 0 |}.

(** The mutex while one reader holds it. *)
Definition rlocked : RWMutex := {| writer := false; readers := 1 |}.

(** C3 as stated: after a capture that succeeds and a processing
    that fails with [err], the entry of the snapshot is [fail] with the text
    of [err] as its message. *)
Definition processing_failure_recorded_verbatim
    (target : SnapshotTarget) (st : State) : Prop :=
  ∀ snapshot r err w1 w2 w3,
    Storage_PrepareSnapshot (storage (self st)) (typeLabel (self st)) target
      (world (env st)) = (snapshot, w1) →
    Snapshot_Collect snapshot (Publisher_Publish (publisher (self st)) w1)
      = (None, w2) →
    Processor_Process (processor (self st)) snapshot
      (Publisher_Publish (publisher (self st)) w2) = ((r, Some err), w3) →
    ∃ ret st' ent,
      Collect target st = Some (Some ret, st') ∧
      ledger st' (ID snapshot) = Some ent ∧
      Entry_Status ent = StatusFail ∧
      Entry_Message ent = Error err.

(** A status the package declares. *)
Definition known (status : Status) : Prop :=
  status = StatusPending ∨ status = StatusOk ∨ status = StatusFail.

(** Every entry a reader reaches through the ledger has a declared status. *)
Definition ledger_known (st : State) : Prop :=
  ∀ id ent, ledger st id = Some ent → known (Entry_Status ent).

(** A sequence of calls [updateStatus(snapshot, status, msg)], one after the
    other, for one snapshot. *)
Fixpoint updateAll (snapshot : Snapshot) (calls : list (Status * string))
  : M unit :=
  match calls with
  | [] => mret ()
  | c :: calls => updateStatus snapshot c.1 c.2;; updateAll snapshot calls
  end.

(** The entry a call allocates. *)
Definition entry_of (snapshot : Snapshot) (c : Status * string) : Entry :=
  {| Entry_Snapshot := snapshot; Entry_Status := c.1; Entry_Message := c.2 |}.

(** Whether the text [msg] contains [id]. *)
Definition mentions (id msg : string) : bool :=
  match String.index 0 id msg with
  | Some _ => true
  | None => false
  end.

(** C10 as stated: the error of [Get] for the absent [id] reads
    [no such entry: <nil>] and does not contain [id]. *)
Definition not_found_hides_id (id : string) (st : State) : Prop :=
  ∃ err st',
    Get id st = Some ((None, Some err), st') ∧
    Error err = "no such entry: <nil>" ∧
    mentions id (Error err) = false.

(** The collector [New] builds. *)
Definition fresh_collector (processor0 : Processor) (opts : Options)
    (store : Storage) : Collector :=
  {| typeLabel := Options_Type opts;
     storage := store;
     processor := newCachedProcessor processor0;
     publisher := Hub_Publisher (EventHub opts) (Options_Type opts);
     mu := unlocked;
     data := ∅ |}.

(* ===================================================================== *)
(** ** Uses of the collector                                              *)
(* ===================================================================== *)

(** Every key of the ledger points to a cell of the heap, and the cell holds
    the snapshot that has the key for its ID. *)
Definition consistent (st : State) : Prop :=
  ∀ id p, data (self st) !! id = Some p →
    ∃ ent, heap (env st) !! p = Some ent ∧ ID (Entry_Snapshot ent) = id.

(** The state once the scheduler has taken the [i]-th goroutine off the
    list of those started. *)
Definition taken (i : nat) (st : State) : State :=
  {| self := self st;
     env := {| heap := heap (env st); world := world (env st);
               trace := trace (env st);
               goroutines := delete i (goroutines (env st)) |} |}.

(** What a program that holds a collector does with it: the three exported
    methods, and the goroutines it lets run. *)
Inductive op : Type :=
| OpCollect (target : SnapshotTarget)
| OpGet (id : string)
| OpList
| OpSchedule (i : nat).

Definition perform (o : op) : M unit :=
  match o with
  | OpCollect target => Collect target;; mret ()
  | OpGet id => Get id;; mret ()
  | OpList => List;; mret ()
  | OpSchedule i => schedule i
  end.

Fixpoint performAll (os : list op) : M unit :=
  match os with
  | [] => mret ()
  | o :: os => perform o;; performAll os
  end.

(** The elementary changes of state the methods are made of: a status
    update with a declared status, a call to a collaborator, a [go]
    statement, a read of the ledger, a goroutine taken by the scheduler. *)
Inductive change : State → State → Prop :=
| change_stored snapshot status msg st :
    known status → change st (stored snapshot status msg st)
| change_told e w st : change st (told e w st)
| change_started t st : change st (started t st)
| change_read evs w st : change st (read evs w st)
| change_taken i st : change st (taken i st).

(** The events of a run of [runProcessor] that ends well. *)
Definition processed_events (snapshot : Snapshot) (r : option ReadCloser)
  : list event :=
  [EvLock; EvPublish; EvUnlock; EvProcess snapshot] ++
  match r with
  | Some r => [EvClose r]
  | None => []
  end ++
  [EvLock; EvPublish; EvUnlock].

(** The snapshot storage allocates for a [Collect] that starts in [st]. *)
Definition allocated (target : SnapshotTarget) (st : State) : Snapshot :=
  (Storage_PrepareSnapshot (storage (self st)) (typeLabel (self st)) target
     (world (env st))).1.

(** The state of a collector [New] has just returned. *)
Definition booted (processor0 : Processor) (opts : Options) (store : Storage)
    (rt : Runtime) : State :=
  {| self := fresh_collector processor0 opts store;
     env := (New processor0 opts rt).2 |}.

End Collector.

Arguments Options {Ext}.
Arguments Collector {Ext}.
Arguments event {Ext}.
Arguments Runtime {Ext}.
Arguments State {Ext}.

(* ===================================================================== *)
(** ** A small installation                                               *)
(* ===================================================================== *)

Module Demo.

Definition prepared (n : nat) (label : string) (target : SnapshotTarget)
  : Snapshot :=
  {| ID := "snapshot-" +:+ pretty n;
     Snapshot_Type := label;
     Snapshot_Target := target |}.

Definition old1 : Snapshot :=
  prepared 0 "pprof" {| URL := "http://app:6060/debug/pprof"; Duration := 30 |}.
Definition old2 : Snapshot :=
  prepared 1 "pprof" {| URL := "http://db:6060/debug/pprof"; Duration := 60 |}.

(** The world counts the snapshots allocated so far.  A working directory
    with an empty name cannot be opened, the index [corrupt.json] cannot be
    listed, the host [down] cannot be captured and the profile of the host
    [garbage] cannot be processed. *)
#[export] Instance ext : Collaborators := {|
  World := nat;
  Storage := string;
  Processor := unit;
  Publisher := string;
  Hub := unit;
  ReadCloser := string;
  newStorage wd fn w :=
    if String.eqb wd ""
    then (inr (errorString "mkdir : no such file or directory"), w)
    else (inl fn, w);
  Storage_List store w :=
    if String.eqb store "corrupt.json"
    then (inr (errorString "unexpected end of JSON input"), w)
    else (inl [old1; old2], w);
  Storage_PrepareSnapshot store label target w :=
    (prepared w label target, S w);
  Snapshot_Collect s w :=
    if String.eqb (URL (Snapshot_Target s)) "http://down"
    then (Some (errorString "connection refused"), w)
    else (None, w);
  Snapshot_Prune s w := w;
  newCachedProcessor p := p;
  Processor_Process p s w :=
    if String.eqb (URL (Snapshot_Target s)) "http://garbage"
    then ((None, Some (errorString "unrecognized profile format")), w)
    else ((Some ("profile of " +:+ ID s), None), w);
  ReadCloser_Close r w := w;
  Hub_Publisher h label := label;
  Publisher_Publish p w := w
|}.

Definition rt0 : Runtime :=
  {| heap := []; world := 2; trace := []; goroutines := [] |}.

Definition opts : Options :=
  {| Options_Type := "pprof"; WorkDir := "/data"; FileName := "index.json";
     EventHub := tt |}.

(** The collector of a storage with nothing persisted, all goroutines done. *)
Definition st0 : State :=
  {| self := {| typeLabel := "pprof"; storage := "index.json";
                processor := tt; publisher := "pprof";
                mu := unlocked; data := ∅ |};
     env := rt0 |}.

Definition good : SnapshotTarget :=
  {| URL := "http://app:6060/debug/pprof"; Duration := 5 |}.
Definition down : SnapshotTarget := {| URL := "http://down"; Duration := 5 |}.
Definition garbage : SnapshotTarget :=
  {| URL := "http://garbage"; Duration := 5 |}.

Definition empty : SnapshotTarget := {| URL := ""; Duration := 5 |}.

Definition ready : Entry :=
  {| Entry_Snapshot := prepared 2 "pprof" good;
     Entry_Status := StatusOk;
     Entry_Message := "Ready" |}.

(** A collector whose ledger holds one snapshot, processed and ready. *)
Definition st1 : State :=
  {| self := {| typeLabel := "pprof"; storage := "index.json";
                processor := tt; publisher := "pprof";
                mu := unlocked; data := {[ "snapshot-2" := 0 ]} |};
     env := {| heap := [ready]; world := 3; trace := [];
               goroutines := [] |} |}.

Definition unprocessable : Snapshot := prepared 7 "pprof" garbage.

Definition corrupt : Options :=
  {| Options_Type := "pprof"; WorkDir := "/data"; FileName := "corrupt.json";
     EventHub := tt |}.

(** The collector [New] returns for [opts], its two recovery goroutines
    waiting. *)
Definition fresh : State := booted tt opts "index.json" rt0.

(** A session: a recovery, a collection that fails in processing, two
    reads, and the pruning the failure asked for. *)
Definition session : list op :=
  [OpSchedule 0; OpCollect garbage; OpGet "snapshot-0"; OpList; OpSchedule 1].

(** The same on a collector with no goroutine waiting: the collection,
    the pruning it asked for, and two reads. *)
Definition visit : list op :=
  [OpCollect garbage; OpSchedule 0; OpGet "snapshot-2"; OpList].

End Demo.

(* ===================================================================== *)
(** ** Runs of the methods                                                *)
(* ===================================================================== *)

Section Runs.

Context `{Ext : Collaborators}.

Lemma updateStatus_eq snapshot status msg st :
  free st →
  updateStatus snapshot status msg st = Some ((), stored snapshot status msg st).
Proof.
  destruct st as [[tl sto pr pu m d] [h w tr g]].
  unfold free; simpl; intros ->.
  unfold stored; simpl. cbv [updateStatus defer mbind M_bind mu_Lock mu_Unlock
    sync new_Entry data_store this call_ call mret M_ret].
  simpl. unfold set_data, set_mu, set_world, log; simpl.
  by rewrite <- !app_assoc.
Qed.

Lemma stored_free snapshot status msg st :
  free st → free (stored snapshot status msg st).
Proof. by unfold free. Qed.

Lemma stored_ledger snapshot status msg st :
  ledger (stored snapshot status msg st) (ID snapshot) =
    Some {| Entry_Snapshot := snapshot; Entry_Status := status;
            Entry_Message := msg |}.
Proof.
  unfold ledger, stored; simpl.
  rewrite lookup_insert_eq; simpl.
  by rewrite lookup_app_r, Nat.sub_diag.
Qed.

Lemma events_since_app st st' evs :
  trace (env st') = trace (env st) ++ evs → events_since st st' = evs.
Proof. unfold events_since. intros ->. by rewrite drop_app_length. Qed.

Lemma call_eq {A : Type} e (f : World → A * World) st :
  call e f st = Some ((f (world (env st))).1, told e (f (world (env st))).2 st).
Proof. unfold call, told. by destruct (f (world (env st))). Qed.

Lemma told_free e w st : free st → free (told e w st).
Proof. by unfold free. Qed.

Lemma started_free t st : free st → free (started t st).
Proof. by unfold free. Qed.

Lemma call__eq e (f : World → World) st :
  call_ e f st = Some ((), told e (f (world (env st))) st).
Proof. done. Qed.

Lemma go_eq t st : go t st = Some ((), started t st).
Proof. done. Qed.

#[local] Hint Resolve stored_free told_free started_free : core.

(** One step of a run: a status update, a call, or the plumbing of the monad. *)
Ltac step :=
  first
    [ rewrite updateStatus_eq by auto
    | rewrite call__eq
    | rewrite call_eq
    | rewrite go_eq
    | progress unfold mbind, M_bind, mret, M_ret, this
    | progress cbn [fst snd] ].

(** [runProcessor] when the processor answers without an error. *)
Lemma runProcessor_ok snapshot r w st :
  free st →
  Processor_Process (processor (self st)) snapshot
    (Publisher_Publish (publisher (self st)) (world (env st))) = ((r, None), w) →
  runProcessor snapshot st =
    Some (None,
          stored snapshot StatusOk "Ready"
            (match r with
             | Some r => told (EvClose r) (ReadCloser_Close r w)
             | None => id
             end (told (EvProcess snapshot) w
                   (stored snapshot StatusPending "Processing" st)))).
Proof.
  intros Hfree Hp. unfold runProcessor. repeat step.
  cbn [stored self env world set_data publisher processor]. rewrite Hp.
  destruct r as [r|]; by repeat step.
Qed.

(** [runProcessor] when the processor answers with the error [err]. *)
Lemma runProcessor_fail snapshot r err w st :
  free st →
  Processor_Process (processor (self st)) snapshot
    (Publisher_Publish (publisher (self st)) (world (env st)))
    = ((r, Some err), w) →
  runProcessor snapshot st =
    Some (Some (Errorf_w "processor aborted: " err),
          stored snapshot StatusFail (Error err)
            (started (goPrune snapshot)
               (told (EvProcess snapshot) w
                  (stored snapshot StatusPending "Processing" st)))).
Proof.
  intros Hfree Hp. unfold runProcessor. repeat step.
  cbn [stored self env world set_data publisher processor]. rewrite Hp.
  by repeat step.
Qed.

Lemma valid_test target :
  valid target →
  String.eqb (URL target) "" || (Duration target =? 0)%Z = false.
Proof.
  intros [Hu Hd]. apply orb_false_intro.
  - by apply String.eqb_neq.
  - by apply Z.eqb_neq.
Qed.

Lemma invalid_test target :
  URL target = "" ∨ Duration target = 0%Z →
  String.eqb (URL target) "" || (Duration target =? 0)%Z = true.
Proof.
  intros [-> | ->].
  - done.
  - by rewrite orb_true_r.
Qed.

Lemma Collect_invalid target st :
  URL target = "" ∨ Duration target = 0%Z →
  Collect target st = Some (Some (Errorf "URL and Duration cannot be nil"), st).
Proof. intros H. unfold Collect. by rewrite invalid_test. Qed.

Lemma Collect_capture_fail target snapshot err w1 w2 st :
  free st → valid target →
  Storage_PrepareSnapshot (storage (self st)) (typeLabel (self st)) target
    (world (env st)) = (snapshot, w1) →
  Snapshot_Collect snapshot (Publisher_Publish (publisher (self st)) w1)
    = (Some err, w2) →
  Collect target st =
    Some (Some (Errorf_w "failed to collect: " err),
          stored snapshot StatusFail (Error err)
            (told (EvCapture snapshot) w2 (collecting target snapshot w1 st))).
Proof.
  intros Hfree Hv Hprep Hcap. unfold Collect, collecting.
  rewrite valid_test by done. repeat step. rewrite Hprep. repeat step.
  cbn [stored told self env world set_data set_world publisher]. rewrite Hcap.
  by repeat step.
Qed.

Lemma Collect_process_fail target snapshot r err w1 w2 w3 st :
  free st → valid target →
  Storage_PrepareSnapshot (storage (self st)) (typeLabel (self st)) target
    (world (env st)) = (snapshot, w1) →
  Snapshot_Collect snapshot (Publisher_Publish (publisher (self st)) w1)
    = (None, w2) →
  Processor_Process (processor (self st)) snapshot
    (Publisher_Publish (publisher (self st)) w2) = ((r, Some err), w3) →
  Collect target st =
    Some (Some (Errorf_w "failed to process: "
                  (Errorf_w "processor aborted: " err)),
          stored snapshot StatusFail
            (Error (Errorf_w "processor aborted: " err))
            (stored snapshot StatusFail (Error err)
               (started (goPrune snapshot)
                  (told (EvProcess snapshot) w3
                     (stored snapshot StatusPending "Processing"
                        (told (EvCapture snapshot) w2
                           (collecting target snapshot w1 st))))))).
Proof.
  intros Hfree Hv Hprep Hcap Hproc. unfold Collect, collecting.
  rewrite valid_test by done. repeat step. rewrite Hprep. repeat step.
  cbn [stored told self env world set_data set_world publisher]. rewrite Hcap.
  repeat step.
  erewrite runProcessor_fail; [by repeat step | auto | exact Hproc].
Qed.

Lemma Collect_ok target snapshot r w1 w2 w3 st :
  free st → valid target →
  Storage_PrepareSnapshot (storage (self st)) (typeLabel (self st)) target
    (world (env st)) = (snapshot, w1) →
  Snapshot_Collect snapshot (Publisher_Publish (publisher (self st)) w1)
    = (None, w2) →
  Processor_Process (processor (self st)) snapshot
    (Publisher_Publish (publisher (self st)) w2) = ((r, None), w3) →
  Collect target st =
    Some (None,
          stored snapshot StatusOk "Ready"
            (match r with
             | Some r => told (EvClose r) (ReadCloser_Close r w3)
             | None => id
             end (told (EvProcess snapshot) w3
                    (stored snapshot StatusPending "Processing"
                       (told (EvCapture snapshot) w2
                          (collecting target snapshot w1 st)))))).
Proof.
  intros Hfree Hv Hprep Hcap Hproc. unfold Collect, collecting.
  rewrite valid_test by done. repeat step. rewrite Hprep. repeat step.
  cbn [stored told self env world set_data set_world publisher]. rewrite Hcap.
  repeat step.
  erewrite runProcessor_ok; [by repeat step | auto | exact Hproc].
Qed.

Lemma free_readable st : free st → readable st.
Proof. unfold free, readable. by intros ->. Qed.

Lemma foldl_append_snd {K V : Type} (l : list (K * V)) (acc : list V) :
  foldl (λ resp kv, resp ++ [kv.2]) acc l = acc ++ l.*2.
Proof.
  revert acc. induction l as [|kv l IH]; intros acc; simpl.
  - by rewrite app_nil_r.
  - by rewrite IH, <- app_assoc.
Qed.

Lemma List_eq st :
  readable st →
  List st = Some ((map_to_list (data (self st))).*2, read [] (world (env st)) st).
Proof.
  destruct st as [[tl sto pr pu [wr n] d] [h w tr g]].
  unfold readable; simpl; intros ->.
  cbv [List defer mbind M_bind mu_RLock mu_RUnlock sync this mret M_ret].
  simpl. rewrite foldl_append_snd. unfold read, log, set_mu; simpl.
  by rewrite <- !app_assoc.
Qed.

Lemma Get_absent id st :
  readable st →
  data (self st) !! id = None →
  Get id st = Some ((None, Some (Errorf "no such entry: <nil>")),
                    read [] (world (env st)) st).
Proof.
  destruct st as [[tl sto pr pu [wr n] d] [h w tr g]].
  unfold readable; simpl; intros -> Hid.
  cbv [Get defer mbind M_bind mu_RLock mu_RUnlock sync this mret M_ret
       data_index]. simpl. rewrite Hid. simpl.
  unfold read, log, set_mu; simpl. rewrite <- !app_assoc. reflexivity.
Qed.

Lemma Get_present id p ent st :
  readable st →
  data (self st) !! id = Some p →
  heap (env st) !! p = Some ent →
  Get id st =
    let res := Processor_Process (processor (self st)) (Entry_Snapshot ent)
                 (world (env st)) in
    Some (res.1, read [EvProcess (Entry_Snapshot ent)] res.2 st).
Proof.
  destruct st as [[tl sto pr pu [wr n] d] [h w tr g]].
  unfold readable; simpl; intros -> Hid Hp.
  cbv [Get defer mbind M_bind mu_RLock mu_RUnlock sync this mret M_ret
       data_index deref call]. simpl. rewrite Hid. simpl. rewrite Hp.
  unfold read, log, set_mu, set_world; simpl.
  destruct (Processor_Process pr (Entry_Snapshot ent) w) as [res w'].
  simpl. rewrite <- !app_assoc. reflexivity.
Qed.

(* ===================================================================== *)
(** ** Properties of the collector                                        *)
(* ===================================================================== *)

(** C1, as amended.  A call to [updateStatus] on a ledger whose mutex is free
    returns, having published exactly once; [Publish] is called between
    [Lock] and the deferred [Unlock], that is with the write lock held. *)
Theorem updateStatus_publishes_once_holding_lock snapshot status msg st :
  free st →
  ∃ st',
    updateStatus snapshot status msg st = Some ((), st') ∧
    count_of is_publish (events_since st st') = 1 ∧
    with_mutex (mu (self st)) (events_since st st') =
      [(unlocked, EvLock); (wlocked, EvPublish); (wlocked, EvUnlock)] ∧
    free st'.
Proof.
  intros Hfree. exists (stored snapshot status msg st).
  split; [by apply updateStatus_eq|].
  rewrite (events_since_app st (stored snapshot status msg st)
             [EvLock; EvPublish; EvUnlock]) by done.
  rewrite Hfree. repeat split. by apply stored_free.
Qed.

(** C4.  [Collect] on a target with an empty URL or a zero duration returns
    the invalid-argument error and leaves the whole state as it was: no call
    to storage (the trace is unchanged), no entry created or modified. *)
Theorem Collect_invalid_argument target st :
  URL target = "" ∨ Duration target = 0%Z →
  ∃ err,
    Collect target st = Some (Some err, st) ∧
    Error err = "URL and Duration cannot be nil" ∧
    events_since st st = [].
Proof.
  intros H. exists (Errorf "URL and Duration cannot be nil").
  split; [by apply Collect_invalid|]. split; [done|].
  unfold events_since. by rewrite drop_all.
Qed.

(** C6.  When the capture fails with [err], [Collect] returns the error
    [failed to collect: ...] that wraps [err], the entry of the snapshot is
    [fail] with the text of [err] as its message, and the processor is
    not called. *)
Theorem Collect_capture_failure target snapshot err w1 w2 st :
  free st → valid target →
  Storage_PrepareSnapshot (storage (self st)) (typeLabel (self st)) target
    (world (env st)) = (snapshot, w1) →
  Snapshot_Collect snapshot (Publisher_Publish (publisher (self st)) w1)
    = (Some err, w2) →
  ∃ ret st',
    Collect target st = Some (Some ret, st') ∧
    Error ret = "failed to collect: " +:+ Error err ∧
    Unwrap ret = Some err ∧
    ledger st' (ID snapshot) =
      Some {| Entry_Snapshot := snapshot; Entry_Status := StatusFail;
              Entry_Message := Error err |} ∧
    count_of is_process (events_since st st') = 0.
Proof.
  intros Hfree Hv Hprep Hcap. eexists _, _.
  split; [by eapply Collect_capture_fail|].
  split; [done|]. split; [done|]. split; [apply stored_ledger|].
  erewrite events_since_app; last first.
  { cbn [stored collecting told env trace log set_world]. by rewrite <- !app_assoc. }
  done.
Qed.

(** C3, as amended.  When the capture succeeds and the processor fails with
    [err], [Collect] returns the error [failed to process: ...] that wraps
    the error of [runProcessor], the entry of the snapshot is [fail], its
    message is [processor aborted: ] followed by the text of [err], and the
    goroutine that prunes the snapshot has been started; once scheduled it
    calls [Prune]. *)
Theorem Collect_processing_failure target snapshot r err w1 w2 w3 st :
  free st → valid target →
  Storage_PrepareSnapshot (storage (self st)) (typeLabel (self st)) target
    (world (env st)) = (snapshot, w1) →
  Snapshot_Collect snapshot (Publisher_Publish (publisher (self st)) w1)
    = (None, w2) →
  Processor_Process (processor (self st)) snapshot
    (Publisher_Publish (publisher (self st)) w2) = ((r, Some err), w3) →
  ∃ ret st' st'',
    Collect target st = Some (Some ret, st') ∧
    Error ret = "failed to process: processor aborted: " +:+ Error err ∧
    Unwrap ret = Some (Errorf_w "processor aborted: " err) ∧
    ledger st' (ID snapshot) =
      Some {| Entry_Snapshot := snapshot; Entry_Status := StatusFail;
              Entry_Message := "processor aborted: " +:+ Error err |} ∧
    goroutines (env st') = goroutines (env st) ++ [goPrune snapshot] ∧
    schedule (length (goroutines (env st))) st' = Some ((), st'') ∧
    events_since st' st'' = [EvPrune snapshot].
Proof.
  intros Hfree Hv Hprep Hcap Hproc. eexists _, _, _.
  split; [by eapply Collect_process_fail|].
  split; [done|]. split; [done|]. split; [apply stored_ledger|].
  split; [done|].
  unfold schedule.
  cbn [stored started collecting told env goroutines spawn log set_world].
  rewrite lookup_app_r, Nat.sub_diag by done. cbn [lookup list_lookup runTask].
  rewrite call__eq. split; [done|].
  apply events_since_app. done.
Qed.

(** C5.  When the target is valid and capture and processing succeed,
    [Collect] returns [nil].  Three entries have been allocated for the
    snapshot, one per status update, and the ledger maps its ID to the last
    one, [ok] with the message [Ready].  The ID being new to the ledger, as
    storage allocates it, the ledger has exactly one entry more: [List]
    returns the pointers it returned before and the new one. *)
Theorem Collect_success target snapshot r w1 w2 w3 st :
  free st → valid target →
  Storage_PrepareSnapshot (storage (self st)) (typeLabel (self st)) target
    (world (env st)) = (snapshot, w1) →
  Snapshot_Collect snapshot (Publisher_Publish (publisher (self st)) w1)
    = (None, w2) →
  Processor_Process (processor (self st)) snapshot
    (Publisher_Publish (publisher (self st)) w2) = ((r, None), w3) →
  data (self st) !! ID snapshot = None →
  ∃ st' p before now st1 st2,
    Collect target st = Some (None, st') ∧
    ledger st' (ID snapshot) =
      Some {| Entry_Snapshot := snapshot; Entry_Status := StatusOk;
              Entry_Message := "Ready" |} ∧
    data (self st') = <[ID snapshot := p]> (data (self st)) ∧
    size (data (self st')) = S (size (data (self st))) ∧
    (∀ q ent, heap (env st) !! q = Some ent → heap (env st') !! q = Some ent) ∧
    List st = Some (before, st1) ∧
    List st' = Some (now, st2) ∧
    now ≡ₚ p :: before.
Proof.
  intros Hfree Hv Hprep Hcap Hproc Hnew.
  pose proof (Collect_ok _ _ _ _ _ _ _ Hfree Hv Hprep Hcap Hproc) as Hrun.
  set (st' := stored snapshot StatusOk "Ready" _) in Hrun.
  assert (Hdata : data (self st') =
            <[ID snapshot := length (heap (env st)) + 2]> (data (self st))).
  { unfold st'. destruct r; cbn [stored collecting told self env data set_data
      heap set_world log id]; rewrite !insert_insert_eq, !length_app; simpl;
      f_equal; lia. }
  assert (Hheap : ∃ new, heap (env st') = heap (env st) ++ new).
  { unfold st'. destruct r; cbn [stored collecting told self env data set_data
      heap set_world log id]; rewrite <- !app_assoc; eauto. }
  assert (Hfree' : free st') by (unfold st'; destruct r; auto 10).
  exists st', (length (heap (env st)) + 2), (map_to_list (data (self st))).*2,
    (map_to_list (data (self st'))).*2, (read [] (world (env st)) st),
    (read [] (world (env st')) st').
  split; [done|]. split; [apply stored_ledger|]. split; [done|].
  split; [by rewrite Hdata, map_size_insert_None|].
  split.
  { intros q ent Hq. destruct Hheap as [new ->]. by apply lookup_app_l_Some. }
  split; [by apply List_eq, free_readable|].
  split; [by apply List_eq, free_readable|].
  rewrite Hdata, map_to_list_insert by done. done.
Qed.

(** C7.  [Get] on an ID the ledger does not hold returns no reader and an
    error, calls nothing but [RLock] and [RUnlock], so the processor is not
    called, and leaves the collector, the ledger and its entries included,
    as they were. *)
Theorem Get_not_found id st :
  readable st →
  data (self st) !! id = None →
  ∃ err st',
    Get id st = Some ((None, Some err), st') ∧
    events_since st st' = [EvRLock; EvRUnlock] ∧
    count_of is_process (events_since st st') = 0 ∧
    self st' = self st ∧
    heap (env st') = heap (env st) ∧
    (∀ id', ledger st' id' = ledger st id').
Proof.
  intros Hr Hid. eexists _, _. split; [by apply Get_absent|].
  rewrite (events_since_app st (read [] (world (env st)) st)
             [EvRLock; EvRUnlock]) by done.
  done.
Qed.

(** X14.  In a run of [Collect] that starts with the mutex free, [Collect],
    and [runProcessor] within it, call the capture and the processor with the
    mutex released. *)
Lemma Collect_calls_unlocked target st :
  free st → lock_released_during is_long (Collect target) st.
Proof.
  intros Hfree ret st' Hrun.
  destruct (String.eqb (URL target) "" || (Duration target =? 0)%Z) eqn:Htest.
  { unfold Collect in Hrun. rewrite Htest in Hrun. injection Hrun as <- <-.
    unfold events_since. by rewrite drop_all. }
  assert (Hv : valid target).
  { apply orb_false_elim in Htest as [Hu Hd].
    split; [by apply String.eqb_neq | by apply Z.eqb_neq]. }
  destruct (Storage_PrepareSnapshot (storage (self st)) (typeLabel (self st))
              target (world (env st))) as [snapshot w1] eqn:Hprep.
  destruct (Snapshot_Collect snapshot
              (Publisher_Publish (publisher (self st)) w1))
    as [[err|] w2] eqn:Hcap.
  { rewrite (Collect_capture_fail _ _ _ _ _ _ Hfree Hv Hprep Hcap) in Hrun.
    injection Hrun as <- <-.
    erewrite events_since_app; last first.
    { cbn [stored collecting told env trace log set_world].
      by rewrite <- !app_assoc. }
    by rewrite Hfree. }
  destruct (Processor_Process (processor (self st)) snapshot
              (Publisher_Publish (publisher (self st)) w2))
    as [[r [err|]] w3] eqn:Hproc.
  - rewrite (Collect_process_fail _ _ _ _ _ _ _ _ Hfree Hv Hprep Hcap Hproc)
      in Hrun.
    injection Hrun as <- <-.
    erewrite events_since_app; last first.
    { cbn [stored started collecting told env trace log spawn set_world].
      by rewrite <- !app_assoc. }
    by rewrite Hfree.
  - rewrite (Collect_ok _ _ _ _ _ _ _ Hfree Hv Hprep Hcap Hproc) in Hrun.
    injection Hrun as <- <-.
    destruct r as [r|].
    + erewrite events_since_app; last first.
      { cbn [stored collecting told env trace log set_world].
        by rewrite <- !app_assoc. }
      by rewrite Hfree.
    + erewrite events_since_app; last first.
      { cbn [stored collecting told env trace log set_world id].
        by rewrite <- !app_assoc. }
      by rewrite Hfree.
Qed.

(** C2, as amended.  [updateStatus], [List] and [Get] on an absent ID make no
    capture and no processing call at all, so none with the mutex held.
    [Get] on an ID of the ledger calls the processor between [RLock] and the
    deferred [RUnlock]: the read lock is held across the processing call. *)
Theorem ledger_lock_scope st :
  free st →
  (∀ snapshot status msg, ∃ st',
     updateStatus snapshot status msg st = Some ((), st') ∧
     count_of is_long (events_since st st') = 0) ∧
  (∃ l st', List st = Some (l, st') ∧
     count_of is_long (events_since st st') = 0) ∧
  (∀ id, data (self st) !! id = None → ∃ res st',
     Get id st = Some (res, st') ∧
     count_of is_long (events_since st st') = 0) ∧
  (∀ id ent, ledger st id = Some ent → ∃ res st',
     Get id st = Some (res, st') ∧
     with_mutex (mu (self st)) (events_since st st') =
       [(unlocked, EvRLock);
        (rlocked, EvProcess (Entry_Snapshot ent));
        (rlocked, EvRUnlock)] ∧
     unheld_at is_long (mu (self st)) (events_since st st') = false).
Proof.
  intros Hfree. pose proof (free_readable _ Hfree) as Hr.
  split; [|split; [|split]].
  - intros snapshot status msg. eexists. split; [by apply updateStatus_eq|].
    by rewrite (events_since_app _ _ [EvLock; EvPublish; EvUnlock]).
  - eexists _, _. split; [by apply List_eq|].
    by rewrite (events_since_app _ _ [EvRLock; EvRUnlock]).
  - intros id Hid. eexists _, _. split; [by apply Get_absent|].
    by rewrite (events_since_app _ _ [EvRLock; EvRUnlock]).
  - intros id ent Hent. unfold ledger in Hent.
    destruct (data (self st) !! id) as [p|] eqn:Hid; [|done].
    simpl in Hent. eexists _, _. split; [by eapply Get_present|].
    rewrite (events_since_app _ _
               [EvRLock; EvProcess (Entry_Snapshot ent); EvRUnlock]) by done.
    by rewrite Hfree.
Qed.

Lemma stored_known snapshot status msg st :
  known status → ledger_known st →
  ledger_known (stored snapshot status msg st).
Proof.
  intros Hk Hst id ent. unfold ledger, stored; simpl.
  destruct (decide (ID snapshot = id)) as [<-|Hne].
  - rewrite lookup_insert_eq; simpl.
    rewrite lookup_app_r, Nat.sub_diag by done. simpl.
    intros [= <-]. exact Hk.
  - rewrite lookup_insert_ne by done.
    destruct (data (self st) !! id) as [p|] eqn:Hp; simpl; [|done].
    intros [Hold | [_ Hnew]]%lookup_app_Some.
    + apply (Hst id). unfold ledger. by rewrite Hp.
    + destruct (p - length (heap (env st))); [|done].
      simpl in Hnew. injection Hnew as <-. exact Hk.
Qed.

Lemma updateAll_run snapshot calls st :
  free st →
  ∃ st',
    updateAll snapshot calls st = Some ((), st') ∧
    free st' ∧
    heap (env st') = heap (env st) ++ (entry_of snapshot <$> calls) ∧
    (calls ≠ [] →
     data (self st') =
       <[ID snapshot := pred (length (heap (env st')))]> (data (self st))) ∧
    (Forall (λ c, known c.1) calls → ledger_known st → ledger_known st').
Proof.
  revert st. induction calls as [|c calls IH]; intros st Hfree.
  - exists st. simpl. rewrite app_nil_r. by repeat split.
  - destruct (IH (stored snapshot c.1 c.2 st)) as (st' & Hrun & Hf & Hh & Hd & Hk);
      [auto|].
    exists st'. cbn [updateAll]. repeat step.
    split; [done|]. split; [done|].
    split; [by rewrite Hh; cbn [stored env heap]; rewrite <- app_assoc|].
    split.
    + intros _. destruct calls as [|c' calls].
      * injection Hrun as <-. cbn [stored self env data set_data heap].
        by rewrite length_app, Nat.add_1_r.
      * rewrite Hd by done. cbn [stored self data set_data].
        by rewrite insert_insert_eq.
    + intros [Hc Hcs]%Forall_cons Hst. apply Hk; [done|].
      by apply stored_known.
Qed.

Lemma List_pointers st p :
  p ∈ (map_to_list (data (self st))).*2 ↔ ∃ id, data (self st) !! id = Some p.
Proof.
  rewrite list_elem_of_fmap. split.
  - intros [[id q] [-> Hin]]. exists id. by apply elem_of_map_to_list.
  - intros [id Hid]. exists (id, p). split; [done|].
    by apply elem_of_map_to_list.
Qed.

(** C8.  Any sequence of calls of [updateStatus] for one snapshot, each with
    one of the three declared statuses as every call in the package has, on
    a ledger whose entries have declared statuses, runs to its end, and then:
    every entry reached through the ledger, by the lookup of [Get] or through
    a pointer [List] returns, has a declared status; each call allocated one
    new cell at the end of the heap and no existing cell was written, so an
    entry read before is still what it was; and the ledger maps the
    snapshot's ID to the cell of the last call, which holds the status and
    message of that call. *)
Theorem updateStatus_sequence snapshot calls st :
  free st →
  Forall (λ c, known c.1) calls →
  ledger_known st →
  ∃ st',
    updateAll snapshot calls st = Some ((), st') ∧
    ledger_known st' ∧
    (∃ l st'', List st' = Some (l, st'') ∧
       ∀ p ent, p ∈ l → heap (env st') !! p = Some ent →
                known (Entry_Status ent)) ∧
    heap (env st') = heap (env st) ++ (entry_of snapshot <$> calls) ∧
    (∀ p ent, heap (env st) !! p = Some ent → heap (env st') !! p = Some ent) ∧
    (∀ c, last calls = Some c →
       data (self st') !! ID snapshot = Some (pred (length (heap (env st')))) ∧
       (length (heap (env st)) ≤ pred (length (heap (env st'))))%nat ∧
       ledger st' (ID snapshot) = Some (entry_of snapshot c)).
Proof.
  intros Hfree Hcalls Hst.
  destruct (updateAll_run snapshot calls st Hfree)
    as (st' & Hrun & Hf & Hh & Hd & Hk).
  specialize (Hk Hcalls Hst).
  exists st'. split; [done|]. split; [done|]. split.
  { eexists _, _. split; [by apply List_eq, free_readable|].
    intros p ent [id Hid]%List_pointers Hp. apply (Hk id).
    unfold ledger. by rewrite Hid. }
  split; [done|]. split.
  { intros p ent Hp. rewrite Hh. by apply lookup_app_l_Some. }
  intros c Hlast.
  assert (Hne : calls ≠ []) by (by intros ->).
  assert (Hcell : heap (env st') !! pred (length (heap (env st')))
                  = Some (entry_of snapshot c)).
  { rewrite <- last_lookup, Hh, last_app, fmap_last, Hlast. done. }
  split; [by rewrite Hd, lookup_insert_eq|]. split.
  { rewrite Hh, length_app, length_fmap. destruct calls; [done|]. simpl. lia. }
  unfold ledger. rewrite Hd, lookup_insert_eq by done. done.
Qed.

(** C10, as amended.  For an ID the ledger does not hold, the error of [Get]
    formats the pointer the lookup returned, which is [nil], and not the ID:
    its text is [no such entry: <nil>] whatever the ID is, so it contains the
    ID only when the ID is a piece of that fixed text. *)
Theorem Get_not_found_message id st :
  readable st →
  data (self st) !! id = None →
  ∃ err st',
    Get id st = Some ((None, Some err), st') ∧
    Error err = "no such entry: " +:+ fmt_v None ∧
    Error err = "no such entry: <nil>" ∧
    mentions id (Error err) = mentions id "no such entry: <nil>".
Proof.
  intros Hr Hid. eexists _, _. split; [by apply Get_absent|]. done.
Qed.

Lemma spawn_all snapshots (rt : Runtime) :
  let rt' := foldl (λ rt snapshot,
                      spawn (goRunProcessor snapshot)
                            (log (EvGo (goRunProcessor snapshot)) rt))
                   rt snapshots in
  goroutines rt' = goroutines rt ++ (goRunProcessor <$> snapshots) ∧
  trace rt' = trace rt ++ ((λ s, EvGo (goRunProcessor s)) <$> snapshots) ∧
  heap rt' = heap rt ∧
  world rt' = world rt.
Proof.
  revert rt. induction snapshots as [|s snapshots IH]; intros rt; simpl.
  - by rewrite !app_nil_r.
  - destruct (IH (spawn (goRunProcessor s) (log (EvGo (goRunProcessor s)) rt)))
      as (Hg & Ht & Hh & Hw).
    rewrite Hg, Ht, Hh, Hw. simpl. by rewrite <- !app_assoc.
Qed.

Lemma count_of_app P tr1 tr2 :
  count_of P (tr1 ++ tr2) = count_of P tr1 + count_of P tr2.
Proof. unfold count_of. by rewrite List.filter_app, length_app. Qed.

Lemma count_of_go P (snapshots : list Snapshot) :
  (∀ t, P (EvGo t) = false) →
  count_of P ((λ s, EvGo (goRunProcessor s)) <$> snapshots) = 0.
Proof.
  intros HP. unfold count_of.
  induction snapshots as [|s snapshots IH]; simpl; [done|]. by rewrite HP.
Qed.

(** C9.  [New] returns an error, and then no collector, exactly when
    [newStorage] fails or, the storage being open, its [List] fails.
    Otherwise it returns a collector and no error, having started one
    [runProcessor] goroutine per listed snapshot, in order; none of them has
    run when [New] returns: they are all waiting to be scheduled, the ledger
    is empty and the processor has not been called. *)
Theorem New_recovery processor0 opts rt :
  let opened := newStorage (WorkDir opts) (FileName opts) (world rt) in
  let res := New processor0 opts rt in
  (res.1.2 ≠ None ↔
     (∃ err, opened.1 = inr err) ∨
     (∃ store err, opened.1 = inl store ∧
                   (Storage_List store opened.2).1 = inr err)) ∧
  (res.1.2 ≠ None → res.1.1 = None) ∧
  (∀ store snapshots w,
     opened.1 = inl store →
     Storage_List store opened.2 = (inl snapshots, w) →
     res.1 = (Some (fresh_collector processor0 opts store), None) ∧
     goroutines res.2 = goroutines rt ++ (goRunProcessor <$> snapshots) ∧
     length (goroutines res.2) = length (goroutines rt) + length snapshots ∧
     heap res.2 = heap rt ∧
     count_of is_process (drop (length (trace rt)) (trace res.2)) = 0 ∧
     count_of is_publish (drop (length (trace rt)) (trace res.2)) = 0).
Proof.
  cbv zeta. unfold New.
  destruct (newStorage (WorkDir opts) (FileName opts) (world rt))
    as [[store|err] w0]; cbn [fst snd].
  - cbn [world set_world log].
    destruct (Storage_List store w0) as [[snapshots|err] w1] eqn:Hlist;
      cbn [fst snd].
    + split; [|split].
      * split; [done|]. intros [[err [=]]|(s & err & [= <-] & Hl)].
        by rewrite Hlist in Hl.
      * done.
      * intros store' snapshots' w' [= <-]. rewrite Hlist. intros [= <- <-].
        match goal with
        | |- context [foldl ?f ?r snapshots] =>
            destruct (spawn_all snapshots r) as (Hg & Ht & Hh & Hw)
        end.
        cbv zeta in Hg, Ht, Hh, Hw. clear Hw.
        cbn [goroutines trace heap world set_world log] in *.
        split; [done|]. split; [exact Hg|].
        split; [by rewrite Hg, length_app, length_fmap|].
        split; [exact Hh|].
        rewrite Ht, <- !app_assoc, drop_app_length, !count_of_app.
        by rewrite !count_of_go.
    + split; [|split].
      * split; [|done]. intros _. right. exists store, err.
        by rewrite Hlist.
      * done.
      * intros store' snapshots' w' [= <-]. by rewrite Hlist.
  - split; [|split].
    + split; [|done]. intros _. left. by exists err.
    + done.
    + by intros store snapshots w [=].
Qed.

(* ===================================================================== *)
(** ** Further properties of the methods                                  *)
(* ===================================================================== *)

(** X1.  [runProcessor] on its own, as the goroutines of [New] run it, when
    the processor answers without an error: it returns [nil], the entry of
    the snapshot is [ok] with the message [Ready], the reader is closed once
    if there is one and nothing is closed if there is none, and no goroutine
    is started. *)
Theorem runProcessor_success snapshot r w st :
  free st →
  Processor_Process (processor (self st)) snapshot
    (Publisher_Publish (publisher (self st)) (world (env st))) = ((r, None), w) →
  ∃ st',
    runProcessor snapshot st = Some (None, st') ∧
    ledger st' (ID snapshot) =
      Some {| Entry_Snapshot := snapshot; Entry_Status := StatusOk;
              Entry_Message := "Ready" |} ∧
    events_since st st' = processed_events snapshot r ∧
    goroutines (env st') = goroutines (env st) ∧
    free st'.
Proof.
  intros Hfree Hp. eexists. split; [by eapply runProcessor_ok|].
  split; [apply stored_ledger|]. split; [|split].
  - apply events_since_app. unfold processed_events.
    destruct r; cbn [stored told env trace log set_world id];
      by rewrite <- !app_assoc.
  - by destruct r.
  - destruct r; auto 10.
Qed.

(** X2.  [runProcessor] on its own when the processor answers with the error
    [err]: it returns an error that wraps [err] behind [processor aborted: ],
    the entry of the snapshot is [fail] and its message is the text of [err]
    itself, the goroutine that prunes the snapshot is started before the
    failure is recorded, and the reader the processor returned beside the
    error, if any, is not closed. *)
Theorem runProcessor_failure snapshot r err w st :
  free st →
  Processor_Process (processor (self st)) snapshot
    (Publisher_Publish (publisher (self st)) (world (env st)))
    = ((r, Some err), w) →
  ∃ ret st',
    runProcessor snapshot st = Some (Some ret, st') ∧
    Error ret = "processor aborted: " +:+ Error err ∧
    Unwrap ret = Some err ∧
    ledger st' (ID snapshot) =
      Some {| Entry_Snapshot := snapshot; Entry_Status := StatusFail;
              Entry_Message := Error err |} ∧
    events_since st st' =
      [EvLock; EvPublish; EvUnlock; EvProcess snapshot;
       EvGo (goPrune snapshot); EvLock; EvPublish; EvUnlock] ∧
    goroutines (env st') = goroutines (env st) ++ [goPrune snapshot] ∧
    free st'.
Proof.
  intros Hfree Hp. eexists _, _. split; [by eapply runProcessor_fail|].
  split; [done|]. split; [done|]. split; [apply stored_ledger|].
  split; [|split; [done|auto 10]].
  apply events_since_app.
  cbn [stored started told env trace log spawn set_world].
  by rewrite <- !app_assoc.
Qed.

(** X3.  [Get] on an ID of the ledger hands back what the processor returns
    for the snapshot of the entry, reader and error alike, whatever the
    status of the entry is; it calls the processor once, publishes nothing
    and leaves the collector and the entries as they were. *)
Theorem Get_found id ent st :
  readable st →
  ledger st id = Some ent →
  ∃ st',
    Get id st =
      Some ((Processor_Process (processor (self st)) (Entry_Snapshot ent)
               (world (env st))).1, st') ∧
    events_since st st' = [EvRLock; EvProcess (Entry_Snapshot ent); EvRUnlock] ∧
    self st' = self st ∧
    heap (env st') = heap (env st) ∧
    goroutines (env st') = goroutines (env st).
Proof.
  intros Hr Hent. unfold ledger in Hent.
  destruct (data (self st) !! id) as [p|] eqn:Hid; [|done]. simpl in Hent.
  eexists. split; [by eapply Get_present|].
  split; [|done]. by apply events_since_app.
Qed.

(** X4.  [List] returns one pointer for each key of the ledger, namely the
    pointers the ledger holds, while other readers may hold the mutex; it
    calls no collaborator and leaves the whole state but the trace as it
    was. *)
Theorem List_pointers_of_ledger st :
  readable st →
  ∃ l st',
    List st = Some (l, st') ∧
    length l = size (data (self st)) ∧
    (∀ p, p ∈ l ↔ ∃ id, data (self st) !! id = Some p) ∧
    events_since st st' = [EvRLock; EvRUnlock] ∧
    self st' = self st ∧
    heap (env st') = heap (env st) ∧
    world (env st') = world (env st) ∧
    goroutines (env st') = goroutines (env st).
Proof.
  intros Hr. eexists _, _. split; [by apply List_eq|].
  split; [by rewrite length_fmap, length_map_to_list|].
  split; [apply List_pointers|].
  split; [by apply events_since_app|done].
Qed.

(** X5.  [updateStatus] touches the entry of its snapshot only: the ledger
    maps the snapshot's ID to a cell that did not exist before, every other
    key keeps its pointer, every cell that existed keeps its content, and no
    goroutine is started. *)
Theorem updateStatus_frame snapshot status msg st :
  free st →
  ∃ st',
    updateStatus snapshot status msg st = Some ((), st') ∧
    data (self st') !! ID snapshot = Some (length (heap (env st))) ∧
    heap (env st) !! length (heap (env st)) = None ∧
    (∀ id, id ≠ ID snapshot → data (self st') !! id = data (self st) !! id) ∧
    (∀ p ent, heap (env st) !! p = Some ent → heap (env st') !! p = Some ent) ∧
    goroutines (env st') = goroutines (env st).
Proof.
  intros Hfree. eexists. split; [by apply updateStatus_eq|].
  cbn [stored self env data set_data heap goroutines].
  split; [by rewrite lookup_insert_eq|].
  split; [by apply lookup_ge_None|].
  split; [by intros id Hne; rewrite lookup_insert_ne|].
  split; [|done]. intros p ent Hp. by apply lookup_app_l_Some.
Qed.

(** What a run of [Collect] on a valid target comes to, whatever the
    collaborators answer. *)
Lemma Collect_summary target st :
  free st → valid target →
  ∃ ret st' evs new status msg,
    Collect target st = Some (ret, st') ∧
    free st' ∧
    trace (env st') = trace (env st) ++ evs ∧
    heap (env st') = heap (env st) ++ new ∧
    length new = count_of is_publish evs ∧
    (∀ id, id ≠ ID (allocated target st) →
           data (self st') !! id = data (self st) !! id) ∧
    ledger st' (ID (allocated target st)) =
      Some {| Entry_Snapshot := allocated target st;
              Entry_Status := status; Entry_Message := msg |} ∧
    match ret with
    | None => status = StatusOk ∧ msg = "Ready"
    | Some e =>
        status = StatusFail ∧ ∃ cause, Unwrap e = Some cause ∧ msg = Error cause
    end.
Proof.
  intros Hfree Hv. unfold allocated.
  destruct (Storage_PrepareSnapshot (storage (self st)) (typeLabel (self st))
              target (world (env st))) as [snapshot w1] eqn:Hprep.
  cbn [fst].
  destruct (Snapshot_Collect snapshot
              (Publisher_Publish (publisher (self st)) w1))
    as [[err|] w2] eqn:Hcap.
  { eexists _, _, _, _, _, _.
    split; [by eapply Collect_capture_fail|]. split; [auto 10|].
    split; [cbn [stored collecting told env trace log set_world];
            by rewrite <- !app_assoc|].
    split; [cbn [stored collecting told env heap log set_world];
            by rewrite <- !app_assoc|].
    split; [done|].
    split; [intros id Hne; cbn [stored collecting told self data set_data];
            by rewrite !lookup_insert_ne|].
    split; [apply stored_ledger|]. split; [done|]. by eexists. }
  destruct (Processor_Process (processor (self st)) snapshot
              (Publisher_Publish (publisher (self st)) w2))
    as [[r [err|]] w3] eqn:Hproc.
  - eexists _, _, _, _, _, _.
    split; [by eapply Collect_process_fail|]. split; [auto 10|].
    split; [cbn [stored started collecting told env trace log spawn set_world];
            by rewrite <- !app_assoc|].
    split; [cbn [stored started collecting told env heap log spawn set_world];
            by rewrite <- !app_assoc|].
    split; [done|].
    split; [intros id Hne;
            cbn [stored started collecting told self data set_data];
            by rewrite !lookup_insert_ne|].
    split; [apply stored_ledger|]. split; [done|]. by eexists.
  - pose proof (Collect_ok _ _ _ _ _ _ _ Hfree Hv Hprep Hcap Hproc) as Hrun.
    destruct r as [r|]; cbn [id] in Hrun.
    + eexists _, _, _, _, _, _. split; [exact Hrun|]. split; [auto 10|].
      split; [cbn [stored collecting told env trace log set_world];
              by rewrite <- !app_assoc|].
      split; [cbn [stored collecting told env heap log set_world];
              by rewrite <- !app_assoc|].
      split; [done|].
      split; [intros id Hne; cbn [stored collecting told self data set_data];
              by rewrite !lookup_insert_ne|].
      split; [apply stored_ledger|]. done.
    + eexists _, _, _, _, _, _. split; [exact Hrun|]. split; [auto 10|].
      split; [cbn [stored collecting told env trace log set_world];
              by rewrite <- !app_assoc|].
      split; [cbn [stored collecting told env heap log set_world];
              by rewrite <- !app_assoc|].
      split; [done|].
      split; [intros id Hne; cbn [stored collecting told self data set_data];
              by rewrite !lookup_insert_ne|].
      split; [apply stored_ledger|]. done.
Qed.

Lemma valid_dec target :
  valid target ∨ (URL target = "" ∨ Duration target = 0%Z).
Proof.
  destruct (String.eqb (URL target) "") eqn:Hu.
  { right. left. by apply String.eqb_eq. }
  destruct (Duration target =? 0)%Z eqn:Hd.
  { right. right. by apply Z.eqb_eq. }
  left. split; [by apply String.eqb_neq | by apply Z.eqb_neq].
Qed.

(** X6.  What [Collect] returns for a valid target and what it leaves in the
    ledger agree on every path: the entry is the one of the snapshot storage
    allocated; it is [ok] with [Ready] exactly when [Collect] returns [nil];
    otherwise it is [fail], and its message is the text of the error that
    the returned error wraps. *)
Theorem Collect_outcome_recorded target st :
  free st → valid target →
  ∃ ret st' ent,
    Collect target st = Some (ret, st') ∧
    ledger st' (ID (allocated target st)) = Some ent ∧
    Entry_Snapshot ent = allocated target st ∧
    match ret with
    | None => Entry_Status ent = StatusOk ∧ Entry_Message ent = "Ready"
    | Some e =>
        Entry_Status ent = StatusFail ∧
        ∃ cause, Unwrap e = Some cause ∧ Entry_Message ent = Error cause
    end.
Proof.
  intros Hfree Hv.
  destruct (Collect_summary target st Hfree Hv)
    as (ret & st' & evs & new & status & msg & Hrun & _ & _ & _ & _ & _ &
        Hent & Hret).
  eexists ret, st', _. split; [done|]. split; [exact Hent|]. by split.
Qed.

(** X7.  [Collect] returns on every path when the mutex is free at the call,
    and has released the mutex when it does.  It publishes once for each
    entry it allocates, changes no key of the ledger but the ID of the
    snapshot storage allocated, and writes no cell that existed. *)
Theorem Collect_returns target st :
  free st →
  ∃ ret st',
    Collect target st = Some (ret, st') ∧
    free st' ∧
    length (heap (env st')) =
      length (heap (env st)) + count_of is_publish (events_since st st') ∧
    (∀ id, id ≠ ID (allocated target st) →
           data (self st') !! id = data (self st) !! id) ∧
    (∀ p ent, heap (env st) !! p = Some ent → heap (env st') !! p = Some ent).
Proof.
  intros Hfree. destruct (valid_dec target) as [Hv|Hinv].
  - destruct (Collect_summary target st Hfree Hv)
      as (ret & st' & evs & new & status & msg & Hrun & Hfree' & Htr & Hheap &
          Hlen & Hdata & _).
    exists ret, st'. split; [done|]. split; [done|].
    rewrite (events_since_app _ _ _ Htr), Hheap, length_app, Hlen.
    split; [done|]. split; [done|].
    intros p ent Hp. by apply lookup_app_l_Some.
  - eexists _, st. split; [by apply Collect_invalid|]. split; [done|].
    unfold events_since. rewrite drop_all. unfold count_of. simpl.
    split; [by rewrite Nat.add_0_r|]. done.
Qed.

(** X8.  After [Collect] on a valid target, successful or not, [Get] on the
    ID of the allocated snapshot finds the entry and calls the processor on
    that snapshot: a failed entry is processed again on demand. *)
Theorem Get_after_Collect target st :
  free st → valid target →
  ∃ ret st' st'',
    Collect target st = Some (ret, st') ∧
    Get (ID (allocated target st)) st' =
      Some ((Processor_Process (processor (self st')) (allocated target st)
               (world (env st'))).1, st'') ∧
    events_since st' st'' =
      [EvRLock; EvProcess (allocated target st); EvRUnlock].
Proof.
  intros Hfree Hv.
  destruct (Collect_summary target st Hfree Hv)
    as (ret & st' & evs & new & status & msg & Hrun & Hfree' & _ & _ & _ & _ &
        Hent & _).
  unfold ledger in Hent.
  destruct (data (self st') !! ID (allocated target st)) as [p|] eqn:Hid;
    [|done].
  simpl in Hent. exists ret, st'. eexists. split; [done|].
  split; [by rewrite (Get_present _ _ _ _ (free_readable _ Hfree') Hid Hent)|].
  by apply events_since_app.
Qed.

(* ===================================================================== *)
(** ** Invariants of the ledger                                           *)
(* ===================================================================== *)

Lemma change_mu st st' : change st st' → mu (self st') = mu (self st).
Proof. by intros []. Qed.

Lemma change_consistent st st' :
  change st st' → consistent st → consistent st'.
Proof.
  intros [snapshot status msg st0 _| | | |] Hc; try exact Hc.
  intros id p. cbn [stored self env data set_data heap].
  destruct (decide (ID snapshot = id)) as [<-|Hne].
  - rewrite lookup_insert_eq. intros [= <-]. eexists.
    split; [by rewrite lookup_app_r, Nat.sub_diag|done].
  - rewrite lookup_insert_ne by done. intros Hp.
    destruct (Hc id p Hp) as (ent & Hent & Hid). exists ent.
    split; [by apply lookup_app_l_Some|done].
Qed.

Lemma change_known st st' :
  change st st' → ledger_known st → ledger_known st'.
Proof.
  intros [snapshot status msg st0 Hk| | | |] Hl; try exact Hl.
  by apply stored_known.
Qed.

Lemma change_keys st st' id :
  change st st' →
  is_Some (data (self st) !! id) → is_Some (data (self st') !! id).
Proof.
  intros [snapshot status msg st0 _| | | |] Hid; try exact Hid.
  cbn [stored self data set_data]. apply lookup_insert_is_Some'. by right.
Qed.

Lemma change_cells st st' p ent :
  change st st' →
  heap (env st) !! p = Some ent → heap (env st') !! p = Some ent.
Proof.
  intros [snapshot status msg st0 _| | | |] Hp; try exact Hp.
  by apply lookup_app_l_Some.
Qed.

Lemma changes_free st st' : rtc change st st' → free st → free st'.
Proof.
  unfold free. induction 1 as [|st st1 st' H1 _ IH]; [done|].
  intros Hf. apply IH. by rewrite (change_mu _ _ H1).
Qed.

Lemma changes_consistent st st' :
  rtc change st st' → consistent st → consistent st'.
Proof. induction 1; eauto using change_consistent. Qed.

Lemma changes_known st st' :
  rtc change st st' → ledger_known st → ledger_known st'.
Proof. induction 1; eauto using change_known. Qed.

Lemma changes_keys st st' id :
  rtc change st st' →
  is_Some (data (self st) !! id) → is_Some (data (self st') !! id).
Proof. induction 1; eauto using change_keys. Qed.

Lemma changes_cells st st' p ent :
  rtc change st st' →
  heap (env st) !! p = Some ent → heap (env st') !! p = Some ent.
Proof. induction 1; eauto using change_cells. Qed.

Lemma known_Pending : known StatusPending.
Proof. by left. Qed.

Lemma known_Ok : known StatusOk.
Proof. by right; left. Qed.

Lemma known_Fail : known StatusFail.
Proof. by right; right. Qed.

#[local] Hint Resolve known_Pending known_Ok known_Fail : core.
#[local] Hint Constructors change : core.

(** Peel the changes off the final state, the last one first. *)
Ltac chain :=
  repeat first
    [ apply rtc_refl
    | eapply rtc_r;
      [|first [ apply change_stored; solve [auto]
              | apply change_told
              | apply change_started
              | apply change_read
              | apply change_taken ]] ].

Lemma runProcessor_changes snapshot st :
  free st →
  ∃ ret st', runProcessor snapshot st = Some (ret, st') ∧ rtc change st st'.
Proof.
  intros Hfree.
  destruct (Processor_Process (processor (self st)) snapshot
              (Publisher_Publish (publisher (self st)) (world (env st))))
    as [[r [err|]] w] eqn:Hp.
  - eexists _, _. split; [by eapply runProcessor_fail|]. chain.
  - eexists _, _. split; [by eapply runProcessor_ok|].
    destruct r; cbn [id]; chain.
Qed.

Lemma Collect_changes target st :
  free st →
  ∃ ret st', Collect target st = Some (ret, st') ∧ rtc change st st'.
Proof.
  intros Hfree. destruct (valid_dec target) as [Hv|Hinv]; last first.
  { eexists _, _. split; [by apply Collect_invalid|]. apply rtc_refl. }
  destruct (Storage_PrepareSnapshot (storage (self st)) (typeLabel (self st))
              target (world (env st))) as [snapshot w1] eqn:Hprep.
  destruct (Snapshot_Collect snapshot
              (Publisher_Publish (publisher (self st)) w1))
    as [[err|] w2] eqn:Hcap.
  { eexists _, _. split; [by eapply Collect_capture_fail|].
    unfold collecting. chain. }
  destruct (Processor_Process (processor (self st)) snapshot
              (Publisher_Publish (publisher (self st)) w2))
    as [[r [err|]] w3] eqn:Hproc.
  - eexists _, _. split; [by eapply Collect_process_fail|].
    unfold collecting. chain.
  - eexists _, _. split; [by eapply Collect_ok|].
    unfold collecting. destruct r; cbn [id]; chain.
Qed.

Lemma Get_changes id st :
  readable st → consistent st →
  ∃ res st', Get id st = Some (res, st') ∧ rtc change st st'.
Proof.
  intros Hr Hc. destruct (data (self st) !! id) as [p|] eqn:Hid.
  - destruct (Hc id p Hid) as (ent & Hent & _).
    eexists _, _. split; [by eapply Get_present|]. chain.
  - eexists _, _. split; [by apply Get_absent|]. chain.
Qed.

Lemma schedule_eq i st :
  schedule i st =
    match goroutines (env st) !! i with
    | Some t => runTask t (taken i st)
    | None => None
    end.
Proof. done. Qed.

Lemma perform_changes o st st' :
  free st → consistent st →
  perform o st = Some ((), st') → rtc change st st'.
Proof.
  intros Hfree Hc. destruct o as [target|id| |i]; cbn [perform].
  - destruct (Collect_changes target st Hfree) as (ret & st1 & Hrun & Hch).
    repeat step. rewrite Hrun. by intros [= <-].
  - destruct (Get_changes id st (free_readable _ Hfree) Hc)
      as (res & st1 & Hrun & Hch).
    repeat step. rewrite Hrun. by intros [= <-].
  - repeat step. rewrite List_eq by by apply free_readable.
    intros [= <-]. chain.
  - rewrite schedule_eq.
    destruct (goroutines (env st) !! i) as [[snapshot|snapshot]|]; [| |done].
    + cbn [runTask].
      destruct (runProcessor_changes snapshot (taken i st) Hfree)
        as (ret & st1 & Hrun & Hch).
      repeat step. rewrite Hrun. intros [= <-].
      eapply rtc_l; [apply change_taken|done].
    + cbn [runTask]. rewrite call__eq. intros [= <-]. chain.
Qed.

Lemma performAll_changes os st st' :
  free st → consistent st →
  performAll os st = Some ((), st') → rtc change st st'.
Proof.
  revert st. induction os as [|o os IH]; intros st Hfree Hc; cbn [performAll].
  - intros [= <-]. apply rtc_refl.
  - repeat step. destruct (perform o st) as [[[] st1]|] eqn:Ho; [|done].
    intros Hrest. pose proof (perform_changes _ _ _ Hfree Hc Ho) as H1.
    etrans; [exact H1|].
    apply IH; [by eapply changes_free|by eapply changes_consistent|done].
Qed.

(** X9.  Whatever a program does with the collector, calls of [Collect],
    [Get] and [List] and goroutines run in any order, the ledger stays
    consistent: every key points to an entry, the entry holds the snapshot
    with that ID, its status is one of the three declared ones, and the
    mutex is free between the calls. *)
Theorem performAll_invariant os st st' :
  free st → consistent st → ledger_known st →
  performAll os st = Some ((), st') →
  free st' ∧ consistent st' ∧ ledger_known st'.
Proof.
  intros Hfree Hc Hk Hrun.
  pose proof (performAll_changes _ _ _ Hfree Hc Hrun) as Hch.
  split; [by eapply changes_free|].
  split; [by eapply changes_consistent|by eapply changes_known].
Qed.

(** X10.  The collector never removes a key from the ledger, not even once
    the snapshot has been pruned, and never writes an entry that exists:
    whatever a program does with it, every ID it had stays, and every cell
    read before reads the same after. *)
Theorem performAll_keeps os st st' :
  free st → consistent st →
  performAll os st = Some ((), st') →
  (∀ id, is_Some (data (self st) !! id) → is_Some (data (self st') !! id)) ∧
  (∀ p ent, heap (env st) !! p = Some ent → heap (env st') !! p = Some ent).
Proof.
  intros Hfree Hc Hrun.
  pose proof (performAll_changes _ _ _ Hfree Hc Hrun) as Hch.
  split.
  - intros id. by apply changes_keys.
  - intros p ent. by apply changes_cells.
Qed.

(* ===================================================================== *)
(** ** Start-up and recovery                                              *)
(* ===================================================================== *)

Lemma New_ok processor0 opts rt store snapshots w :
  (newStorage (WorkDir opts) (FileName opts) (world rt)).1 = inl store →
  Storage_List store (newStorage (WorkDir opts) (FileName opts) (world rt)).2
    = (inl snapshots, w) →
  New processor0 opts rt =
    ((Some (fresh_collector processor0 opts store), None),
     foldl (λ rt snapshot,
              spawn (goRunProcessor snapshot)
                    (log (EvGo (goRunProcessor snapshot)) rt))
           (set_world w
              (log EvStorageList
                 (set_world
                    (newStorage (WorkDir opts) (FileName opts) (world rt)).2
                    (log (EvNewStorage (WorkDir opts) (FileName opts)) rt))))
           snapshots).
Proof.
  unfold New.
  destruct (newStorage (WorkDir opts) (FileName opts) (world rt))
    as [[store'|err] w0]; cbn [fst snd]; [|done].
  intros [= ->]. cbn [world set_world log]. by intros ->.
Qed.

(** X11.  When [New] fails it returns no collector and has started no
    goroutine; its error wraps the cause and names the stage:
    [failed to initialize storage: ] when the storage cannot be opened, in
    which case the snapshots are not listed at all, and
    [failed to list snapshots: ] when they cannot be listed. *)
Theorem New_failure processor0 opts rt err :
  (New processor0 opts rt).1.2 = Some err →
  let opened := newStorage (WorkDir opts) (FileName opts) (world rt) in
  let res := New processor0 opts rt in
  res.1.1 = None ∧
  goroutines res.2 = goroutines rt ∧
  heap res.2 = heap rt ∧
  ∃ cause,
    Unwrap err = Some cause ∧
    ((opened.1 = inr cause ∧
      Error err = "failed to initialize storage: " +:+ Error cause ∧
      trace res.2 =
        trace rt ++ [EvNewStorage (WorkDir opts) (FileName opts)]) ∨
     (∃ store,
        opened.1 = inl store ∧
        (Storage_List store opened.2).1 = inr cause ∧
        Error err = "failed to list snapshots: " +:+ Error cause ∧
        trace res.2 =
          trace rt ++
          [EvNewStorage (WorkDir opts) (FileName opts); EvStorageList])).
Proof.
  cbv zeta. unfold New.
  destruct (newStorage (WorkDir opts) (FileName opts) (world rt))
    as [[store|cause] w0]; cbn [fst snd].
  - cbn [world set_world log].
    destruct (Storage_List store w0) as [[snapshots|cause] w1] eqn:Hlist;
      cbn [fst snd]; [done|].
    intros [= <-]. repeat split. exists cause. split; [done|].
    right. exists store. rewrite Hlist. repeat split.
    cbn [trace set_world log]. by rewrite <- app_assoc.
  - intros [= <-]. repeat split. exists cause. split; [done|]. by left.
Qed.

(** X12.  The collector [New] returns starts with an empty ledger and a free
    mutex: it is consistent, [List] returns nothing, and the goroutines it
    has started are the [runProcessor] of the listed snapshots, in the order
    of the list, after those that ran before. *)
Theorem New_booted processor0 opts rt store snapshots w :
  (newStorage (WorkDir opts) (FileName opts) (world rt)).1 = inl store →
  Storage_List store (newStorage (WorkDir opts) (FileName opts) (world rt)).2
    = (inl snapshots, w) →
  let st := booted processor0 opts store rt in
  free st ∧ consistent st ∧ ledger_known st ∧
  (∃ st', List st = Some ([], st')) ∧
  (∀ id, ledger st id = None) ∧
  (∀ i s, snapshots !! i = Some s →
     goroutines (env st) !! (length (goroutines rt) + i)
       = Some (goRunProcessor s)).
Proof.
  intros Hopen Hlist. cbv zeta. unfold booted.
  rewrite (New_ok _ _ _ _ _ _ Hopen Hlist). cbn [snd].
  match goal with
  | |- context [foldl ?f ?r snapshots] =>
      destruct (spawn_all snapshots r) as (Hg & _)
  end.
  cbv zeta in Hg. cbn [goroutines set_world log] in Hg.
  split; [done|].
  split; [by intros id p; cbn [self fresh_collector data];
             rewrite lookup_empty|].
  split; [by intros id ent; unfold ledger; cbn [self fresh_collector data];
             rewrite lookup_empty|].
  split.
  { eexists. rewrite List_eq by done.
    cbn [self fresh_collector data]. by rewrite map_to_list_empty. }
  split; [by intros id; unfold ledger; cbn [self fresh_collector data];
             rewrite lookup_empty|].
  intros i s Hi. cbn [env]. rewrite Hg.
  rewrite lookup_app_r by lia.
  replace (length (goroutines rt) + i - length (goroutines rt)) with i by lia.
  by rewrite list_lookup_fmap, Hi.
Qed.

(** X13.  When the scheduler runs a recovery goroutine, the one of the
    snapshot [s], the goroutine ends and leaves the entry of [s] settled,
    never pending: either [ok] with [Ready], or [fail], and then a goroutine
    that prunes [s] has been started.  The error of [runProcessor] goes to
    nobody. *)
Theorem schedule_recovery i s st :
  free st →
  goroutines (env st) !! i = Some (goRunProcessor s) →
  ∃ st' ent,
    schedule i st = Some ((), st') ∧
    free st' ∧
    ledger st' (ID s) = Some ent ∧
    Entry_Snapshot ent = s ∧
    ((Entry_Status ent = StatusOk ∧ Entry_Message ent = "Ready" ∧
      goroutines (env st') = delete i (goroutines (env st))) ∨
     (Entry_Status ent = StatusFail ∧
      goroutines (env st') = delete i (goroutines (env st)) ++ [goPrune s])).
Proof.
  intros Hfree Hi. rewrite schedule_eq, Hi. cbn [runTask].
  assert (Hfree' : free (taken i st)) by done.
  destruct (Processor_Process (processor (self (taken i st))) s
              (Publisher_Publish (publisher (self (taken i st)))
                 (world (env (taken i st)))))
    as [[r [err|]] w] eqn:Hp.
  - eexists _, _. repeat step.
    rewrite (runProcessor_fail _ _ _ _ _ Hfree' Hp).
    split; [done|]. split; [auto 10|]. split; [apply stored_ledger|].
    split; [done|]. by right.
  - eexists _, _. repeat step.
    rewrite (runProcessor_ok _ _ _ _ Hfree' Hp).
    split; [done|]. split; [destruct r; auto 10|].
    split; [apply stored_ledger|]. split; [done|]. left.
    split; [done|]. split; [done|]. by destruct r.
Qed.

End Runs.

(* ===================================================================== *)
(** ** The properties on the small installation                           *)
(* ===================================================================== *)

Import Demo.

Example Collect_good_calls :
  (λ r, trace (env r.2)) <$> Collect good st0 =
    Some [EvPrepareSnapshot "pprof" good;
          EvLock; EvPublish; EvUnlock;
          EvCapture (prepared 2 "pprof" good);
          EvLock; EvPublish; EvUnlock;
          EvProcess (prepared 2 "pprof" good);
          EvClose "profile of snapshot-2";
          EvLock; EvPublish; EvUnlock].
Proof. vm_compute. reflexivity. Qed.

Example Collect_down_ledger :
  (λ r : option error * State,
     (Error <$> r.1, ledger r.2 "snapshot-2")) <$> Collect down st0 =
    Some (Some "failed to collect: connection refused",
          Some {| Entry_Snapshot := prepared 2 "pprof" down;
                  Entry_Status := "fail";
                  Entry_Message := "connection refused" |}).
Proof. vm_compute. reflexivity. Qed.

Example Get_ready :
  (λ r, (r.1, with_mutex unlocked (trace (env r.2)))) <$> Get "snapshot-2" st1 =
    Some ((Some "profile of snapshot-2", None),
          [(unlocked, EvRLock);
           (rlocked, EvProcess (prepared 2 "pprof" good));
           (rlocked, EvRUnlock)]).
Proof. vm_compute. reflexivity. Qed.

Example New_unreadable_index :
  (New () {| Options_Type := "pprof"; WorkDir := "/data";
             FileName := "corrupt.json"; EventHub := () |} rt0).1 =
    (None,
     Some (wrapError "failed to list snapshots: unexpected end of JSON input"
             (errorString "unexpected end of JSON input"))).
Proof. vm_compute. reflexivity. Qed.

(** C1 as stated fails: [updateStatus] calls [Publish] with the
    write lock held. *)
Lemma updateStatus_publish_lock_not_released :
  ¬ lock_released_during is_publish (updateStatus old1 StatusOk "Ready") st0.
Proof.
  intros H.
  specialize (H () _ (updateStatus_eq old1 StatusOk "Ready" st0 eq_refl)).
  vm_compute in H. discriminate H.
Qed.

Lemma updateStatus_publishes_once_holding_lock_witness :
  free st0 ∧
  ∃ st',
    updateStatus old1 StatusOk "Ready" st0 = Some ((), st') ∧
    count_of is_publish (events_since st0 st') = 1 ∧
    with_mutex (mu (self st0)) (events_since st0 st') =
      [(unlocked, EvLock); (wlocked, EvPublish); (wlocked, EvUnlock)] ∧
    free st'.
Proof.
  split; [reflexivity|].
  apply (updateStatus_publishes_once_holding_lock old1 StatusOk "Ready" st0).
  reflexivity.
Defined.

(** C2 as stated fails: [Get] on an ID of the ledger calls the
    processor with the read lock held. *)
Lemma Get_keeps_lock_across_Process :
  ¬ lock_released_during is_long (Get "snapshot-2") st1.
Proof.
  intros H.
  specialize (H _ _ (Get_present "snapshot-2" 0 _ st1 eq_refl eq_refl eq_refl)).
  vm_compute in H. discriminate H.
Qed.

Lemma ledger_lock_scope_witness :
  free st1 ∧
  ∃ res st',
    Get "snapshot-2" st1 = Some (res, st') ∧
    with_mutex (mu (self st1)) (events_since st1 st') =
      [(unlocked, EvRLock);
       (rlocked, EvProcess (Entry_Snapshot ready));
       (rlocked, EvRUnlock)] ∧
    unheld_at is_long (mu (self st1)) (events_since st1 st') = false.
Proof.
  split; [reflexivity|].
  destruct (ledger_lock_scope st1 eq_refl) as (_ & _ & _ & Hget).
  apply (Hget "snapshot-2" ready). reflexivity.
Defined.

(** C3 as stated fails: the message of the entry is the text of
    the error [runProcessor] returns, not of the processor's. *)
Lemma Collect_processing_failure_message_not_verbatim :
  ¬ processing_failure_recorded_verbatim garbage st0.
Proof.
  intros H.
  destruct (H (prepared 2 "pprof" garbage) None
              (errorString "unrecognized profile format") 3 3 3
              eq_refl eq_refl eq_refl)
    as (ret & st' & ent & Hrun & Hent & _ & Hmsg).
  vm_compute in Hrun. injection Hrun as <- <-.
  vm_compute in Hent. injection Hent as <-.
  vm_compute in Hmsg. discriminate Hmsg.
Qed.

Lemma Collect_processing_failure_witness :
  ∃ ret st' st'',
    Collect garbage st0 = Some (Some ret, st') ∧
    Error ret =
      "failed to process: processor aborted: unrecognized profile format" ∧
    Unwrap ret =
      Some (Errorf_w "processor aborted: "
              (errorString "unrecognized profile format")) ∧
    ledger st' "snapshot-2" =
      Some {| Entry_Snapshot := prepared 2 "pprof" garbage;
              Entry_Status := StatusFail;
              Entry_Message :=
                "processor aborted: unrecognized profile format" |} ∧
    goroutines (env st') = [goPrune (prepared 2 "pprof" garbage)] ∧
    schedule 0 st' = Some ((), st'') ∧
    events_since st' st'' = [EvPrune (prepared 2 "pprof" garbage)].
Proof.
  apply (Collect_processing_failure (Ext := ext) garbage (prepared 2 "pprof" garbage) None
           (errorString "unrecognized profile format") 3 3 3 st0).
  - reflexivity.
  - split; discriminate.
  - reflexivity.
  - reflexivity.
  - reflexivity.
Defined.

Lemma Collect_invalid_argument_witness :
  ∃ err,
    Collect empty st1 = Some (Some err, st1) ∧
    Error err = "URL and Duration cannot be nil" ∧
    events_since st1 st1 = [].
Proof.
  apply (Collect_invalid_argument empty st1). left. reflexivity.
Defined.

Lemma Collect_success_witness :
  ∃ st' p before now st1 st2,
    Collect good st0 = Some (None, st') ∧
    ledger st' "snapshot-2" = Some ready ∧
    data (self st') = <[ "snapshot-2" := p ]> (data (self st0)) ∧
    size (data (self st')) = S (size (data (self st0))) ∧
    (∀ q ent, heap (env st0) !! q = Some ent → heap (env st') !! q = Some ent) ∧
    List st0 = Some (before, st1) ∧
    List st' = Some (now, st2) ∧
    now ≡ₚ p :: before.
Proof.
  apply (Collect_success (Ext := ext) good (prepared 2 "pprof" good)
           (Some "profile of snapshot-2") 3 3 3 st0).
  - reflexivity.
  - split; discriminate.
  - reflexivity.
  - reflexivity.
  - reflexivity.
  - reflexivity.
Defined.

Lemma Collect_capture_failure_witness :
  ∃ ret st',
    Collect down st0 = Some (Some ret, st') ∧
    Error ret = "failed to collect: connection refused" ∧
    Unwrap ret = Some (errorString "connection refused") ∧
    ledger st' "snapshot-2" =
      Some {| Entry_Snapshot := prepared 2 "pprof" down;
              Entry_Status := StatusFail;
              Entry_Message := "connection refused" |} ∧
    count_of is_process (events_since st0 st') = 0.
Proof.
  apply (Collect_capture_failure (Ext := ext) down (prepared 2 "pprof" down)
           (errorString "connection refused") 3 3 st0).
  - reflexivity.
  - split; discriminate.
  - reflexivity.
  - reflexivity.
Defined.

Lemma Get_not_found_witness :
  ∃ err st',
    Get "snapshot-9" st1 = Some ((None, Some err), st') ∧
    events_since st1 st' = [EvRLock; EvRUnlock] ∧
    count_of is_process (events_since st1 st') = 0 ∧
    self st' = self st1 ∧
    heap (env st') = heap (env st1) ∧
    (∀ id', ledger st' id' = ledger st1 id').
Proof.
  apply (Get_not_found "snapshot-9" st1).
  - reflexivity.
  - vm_compute. reflexivity.
Defined.

Lemma updateStatus_sequence_witness :
  ∃ st',
    updateAll old1 [(StatusPending, "Processing"); (StatusOk, "Ready")] st1
      = Some ((), st') ∧
    ledger_known st' ∧
    (∃ l st'', List st' = Some (l, st'') ∧
       ∀ p ent, p ∈ l → heap (env st') !! p = Some ent →
                known (Entry_Status ent)) ∧
    heap (env st') =
      heap (env st1) ++
      (entry_of old1 <$> [(StatusPending, "Processing"); (StatusOk, "Ready")]) ∧
    (∀ p ent, heap (env st1) !! p = Some ent → heap (env st') !! p = Some ent) ∧
    (∀ c, last [(StatusPending, "Processing"); (StatusOk, "Ready")] = Some c →
       data (self st') !! "snapshot-0" = Some (pred (length (heap (env st')))) ∧
       (length (heap (env st1)) ≤ pred (length (heap (env st'))))%nat ∧
       ledger st' "snapshot-0" = Some (entry_of old1 c)).
Proof.
  apply (updateStatus_sequence old1
           [(StatusPending, "Processing"); (StatusOk, "Ready")] st1).
  - reflexivity.
  - constructor; [left; reflexivity|].
    constructor; [right; left; reflexivity|]. constructor.
  - intros id ent. unfold ledger. simpl.
    destruct (decide (id = "snapshot-2")) as [->|Hne].
    + vm_compute. intros [= <-]. right. left. reflexivity.
    + rewrite lookup_singleton_ne by done. discriminate.
Defined.

Lemma New_recovery_witness :
  (New () opts rt0).1 = (Some (fresh_collector () opts "index.json"), None) ∧
  goroutines (New () opts rt0).2 =
    goroutines rt0 ++ (goRunProcessor <$> [old1; old2]) ∧
  length (goroutines (New () opts rt0).2) = length (goroutines rt0) + 2 ∧
  heap (New () opts rt0).2 = heap rt0 ∧
  count_of is_process
    (drop (length (trace rt0)) (trace (New () opts rt0).2)) = 0 ∧
  count_of is_publish
    (drop (length (trace rt0)) (trace (New () opts rt0).2)) = 0.
Proof.
  destruct (New_recovery (Ext := ext) () opts rt0) as (_ & _ & Hok).
  apply (Hok "index.json" [old1; old2] 2); reflexivity.
Defined.

(** C10 as stated fails: the fixed text of the error contains the
    absent ID [nil]. *)
Lemma Get_not_found_message_contains_id :
  data (self st0) !! "nil" = None ∧ ¬ not_found_hides_id "nil" st0.
Proof.
  split; [reflexivity|].
  intros (err & st' & Hget & _ & Hm).
  vm_compute in Hget. injection Hget as <- <-.
  vm_compute in Hm. discriminate Hm.
Qed.

Lemma Get_not_found_message_witness :
  ∃ err st',
    Get "nil" st0 = Some ((None, Some err), st') ∧
    Error err = "no such entry: " +:+ fmt_v None ∧
    Error err = "no such entry: <nil>" ∧
    mentions "nil" (Error err) = mentions "nil" "no such entry: <nil>".
Proof.
  apply (Get_not_found_message "nil" st0); reflexivity.
Defined.

Lemma runProcessor_success_witness :
  ∃ st',
    runProcessor old1 st0 = Some (None, st') ∧
    ledger st' "snapshot-0" =
      Some {| Entry_Snapshot := old1; Entry_Status := StatusOk;
              Entry_Message := "Ready" |} ∧
    events_since st0 st' = processed_events old1 (Some "profile of snapshot-0") ∧
    goroutines (env st') = goroutines (env st0) ∧
    free st'.
Proof.
  apply (runProcessor_success (Ext := ext) old1
           (Some "profile of snapshot-0") 2 st0); reflexivity.
Defined.

Lemma runProcessor_failure_witness :
  ∃ ret st',
    runProcessor unprocessable st0 = Some (Some ret, st') ∧
    Error ret = "processor aborted: unrecognized profile format" ∧
    Unwrap ret = Some (errorString "unrecognized profile format") ∧
    ledger st' "snapshot-7" =
      Some {| Entry_Snapshot := unprocessable; Entry_Status := StatusFail;
              Entry_Message := "unrecognized profile format" |} ∧
    events_since st0 st' =
      [EvLock; EvPublish; EvUnlock; EvProcess unprocessable;
       EvGo (goPrune unprocessable); EvLock; EvPublish; EvUnlock] ∧
    goroutines (env st') = goroutines (env st0) ++ [goPrune unprocessable] ∧
    free st'.
Proof.
  apply (runProcessor_failure (Ext := ext) unprocessable None
           (errorString "unrecognized profile format") 2 st0); reflexivity.
Defined.

Lemma Get_found_witness :
  ∃ st',
    Get "snapshot-2" st1 =
      Some ((Processor_Process (processor (self st1)) (Entry_Snapshot ready)
               (world (env st1))).1, st') ∧
    events_since st1 st' =
      [EvRLock; EvProcess (Entry_Snapshot ready); EvRUnlock] ∧
    self st' = self st1 ∧
    heap (env st') = heap (env st1) ∧
    goroutines (env st') = goroutines (env st1).
Proof.
  apply (Get_found "snapshot-2" ready st1); reflexivity.
Defined.

Lemma List_pointers_of_ledger_witness :
  ∃ l st',
    List st1 = Some (l, st') ∧
    length l = size (data (self st1)) ∧
    (∀ p, p ∈ l ↔ ∃ id, data (self st1) !! id = Some p) ∧
    events_since st1 st' = [EvRLock; EvRUnlock] ∧
    self st' = self st1 ∧
    heap (env st') = heap (env st1) ∧
    world (env st') = world (env st1) ∧
    goroutines (env st') = goroutines (env st1).
Proof.
  apply (List_pointers_of_ledger st1). reflexivity.
Defined.

Lemma updateStatus_frame_witness :
  ∃ st',
    updateStatus old1 StatusOk "Ready" st1 = Some ((), st') ∧
    data (self st') !! "snapshot-0" = Some (length (heap (env st1))) ∧
    heap (env st1) !! length (heap (env st1)) = None ∧
    (∀ id, id ≠ "snapshot-0" → data (self st') !! id = data (self st1) !! id) ∧
    (∀ p ent, heap (env st1) !! p = Some ent → heap (env st') !! p = Some ent) ∧
    goroutines (env st') = goroutines (env st1).
Proof.
  apply (updateStatus_frame old1 StatusOk "Ready" st1). reflexivity.
Defined.

Lemma Collect_outcome_recorded_witness :
  ∃ ret st' ent,
    Collect garbage st0 = Some (ret, st') ∧
    ledger st' (ID (allocated garbage st0)) = Some ent ∧
    Entry_Snapshot ent = allocated garbage st0 ∧
    match ret with
    | None => Entry_Status ent = StatusOk ∧ Entry_Message ent = "Ready"
    | Some e =>
        Entry_Status ent = StatusFail ∧
        ∃ cause, Unwrap e = Some cause ∧ Entry_Message ent = Error cause
    end.
Proof.
  apply (Collect_outcome_recorded garbage st0).
  - reflexivity.
  - split; discriminate.
Defined.

Lemma Collect_returns_witness :
  ∃ ret st',
    Collect good st0 = Some (ret, st') ∧
    free st' ∧
    length (heap (env st')) =
      length (heap (env st0)) + count_of is_publish (events_since st0 st') ∧
    (∀ id, id ≠ ID (allocated good st0) →
           data (self st') !! id = data (self st0) !! id) ∧
    (∀ p ent, heap (env st0) !! p = Some ent → heap (env st') !! p = Some ent).
Proof.
  apply (Collect_returns good st0). reflexivity.
Defined.

Lemma Get_after_Collect_witness :
  ∃ ret st' st'',
    Collect down st0 = Some (ret, st') ∧
    Get (ID (allocated down st0)) st' =
      Some ((Processor_Process (processor (self st')) (allocated down st0)
               (world (env st'))).1, st'') ∧
    events_since st' st'' =
      [EvRLock; EvProcess (allocated down st0); EvRUnlock].
Proof.
  apply (Get_after_Collect down st0).
  - reflexivity.
  - split; discriminate.
Defined.

Lemma fresh_consistent : consistent fresh.
Proof. intros id p. vm_compute. discriminate. Qed.

Lemma fresh_known : ledger_known fresh.
Proof. intros id ent. vm_compute. discriminate. Qed.

Lemma performAll_invariant_witness :
  ∃ st',
    performAll session fresh = Some ((), st') ∧
    free st' ∧ consistent st' ∧ ledger_known st'.
Proof.
  eexists. split; [vm_compute; reflexivity|].
  eapply (performAll_invariant session fresh).
  - reflexivity.
  - exact fresh_consistent.
  - exact fresh_known.
  - vm_compute. reflexivity.
Defined.

Lemma performAll_keeps_witness :
  ∃ st',
    performAll visit st1 = Some ((), st') ∧
    (∀ id, is_Some (data (self st1) !! id) → is_Some (data (self st') !! id)) ∧
    (∀ p ent, heap (env st1) !! p = Some ent → heap (env st') !! p = Some ent).
Proof.
  eexists. split; [vm_compute; reflexivity|].
  eapply (performAll_keeps visit st1).
  - reflexivity.
  - intros id p. unfold st1; cbn [self env data heap].
    intros [<- <-]%lookup_singleton_Some. by exists ready.
  - vm_compute. reflexivity.
Defined.

Lemma New_failure_witness :
  (New () corrupt rt0).1.1 = None ∧
  goroutines (New () corrupt rt0).2 = goroutines rt0 ∧
  heap (New () corrupt rt0).2 = heap rt0 ∧
  ∃ cause,
    Unwrap (Errorf_w "failed to list snapshots: "
              (errorString "unexpected end of JSON input")) = Some cause ∧
    (((newStorage "/data" "corrupt.json" 2).1 = inr cause ∧
      Error (Errorf_w "failed to list snapshots: "
               (errorString "unexpected end of JSON input")) =
        "failed to initialize storage: " +:+ Error cause ∧
      trace (New () corrupt rt0).2 =
        trace rt0 ++ [EvNewStorage "/data" "corrupt.json"]) ∨
     (∃ store,
        (newStorage "/data" "corrupt.json" 2).1 = inl store ∧
        (Storage_List store (newStorage "/data" "corrupt.json" 2).2).1
          = inr cause ∧
        Error (Errorf_w "failed to list snapshots: "
                 (errorString "unexpected end of JSON input")) =
          "failed to list snapshots: " +:+ Error cause ∧
        trace (New () corrupt rt0).2 =
          trace rt0 ++ [EvNewStorage "/data" "corrupt.json"; EvStorageList])).
Proof.
  apply (New_failure (Ext := ext) () corrupt rt0
           (Errorf_w "failed to list snapshots: "
              (errorString "unexpected end of JSON input"))).
  reflexivity.
Defined.

Lemma New_booted_witness :
  free fresh ∧ consistent fresh ∧ ledger_known fresh ∧
  (∃ st', List fresh = Some ([], st')) ∧
  (∀ id, ledger fresh id = None) ∧
  (∀ i s, [old1; old2] !! i = Some s →
     goroutines (env fresh) !! (length (goroutines rt0) + i)
       = Some (goRunProcessor s)).
Proof.
  apply (New_booted (Ext := ext) () opts rt0 "index.json" [old1; old2] 2);
    reflexivity.
Defined.

Lemma schedule_recovery_witness :
  ∃ st' ent,
    schedule 0 fresh = Some ((), st') ∧
    free st' ∧
    ledger st' "snapshot-0" = Some ent ∧
    Entry_Snapshot ent = old1 ∧
    ((Entry_Status ent = StatusOk ∧ Entry_Message ent = "Ready" ∧
      goroutines (env st') = delete 0 (goroutines (env fresh))) ∨
     (Entry_Status ent = StatusFail ∧
      goroutines (env st') =
        delete 0 (goroutines (env fresh)) ++ [goPrune old1])).
Proof.
  apply (schedule_recovery 0 old1 fresh); reflexivity.
Defined.

Lemma Collect_calls_unlocked_witness :
  lock_released_during is_long (Collect good) st0.
Proof.
  apply (Collect_calls_unlocked good st0). reflexivity.
Defined.

Example session_ledger :
  (λ r : () * State,
     (λ id, (λ e, (Entry_Status e, Entry_Message e)) <$> ledger r.2 id) <$>
     ["snapshot-0"; "snapshot-1"; "snapshot-2"]) <$> performAll session fresh =
    Some [Some ("ok", "Ready"); None;
          Some ("fail", "processor aborted: unrecognized profile format")].
Proof. vm_compute. reflexivity. Qed.
